(** * The NFS file table of Previous: handles, attribute overlays, sidecar files

    A shallow embedding of [src/slirp/nfs/FileTable.cpp] (classes [FileAttrs],
    [FileAttrDB] and [FileTable]) and the properties its specification states
    about it.

    Conventions of the embedding.
    - Fixed-width integers are [Z] with the wrap-around written out
      ([wrap32], [signed32], [wrap64]).
    - A [std::map] is a [gmap]; a [FileAttrs*] stored in a map is an
      [option FileAttrs], [None] being the null pointer.
    - A [FileAttrDB*] is identified with the directory it was created for:
      [FileTable::GetDB] creates exactly one object per directory and never
      frees it before the table is destroyed.
    - Everything the code reads from the outside world (realpath, stat, the
      sidecar files, whether a file opens for writing, the content of
      uninitialised memory) is a field of [Host], passed to each operation;
      what it writes to the outside world is returned.
    - The coordinator-wide lock serialises every operation, so operations are
      functions from state to state.
    - Dereferencing a null pointer ends the process: such operations return
      [option], [None] being the crash.
    - The C library is that of a platform with glibc and a 64-bit [long]:
      [dirname], the conversions of [fscanf] and [MAXPATHLEN] are modelled
      as they are there. *)

From Stdlib Require Import ZArith Ascii String List Lia.
From stdpp Require Import gmap strings list sorting.

Local Open Scope Z_scope.

(** ** Machine integers *)

Definition wrap32 (x : Z) : Z := x mod 2 ^ 32.
Definition wrap64 (x : Z) : Z := x mod 2 ^ 64.

(** An [int] read out of 32 bits (two's complement). *)
Definition signed32 (x : Z) : Z :=
  let y := wrap32 x in if y <? 2 ^ 31 then y else y - 2 ^ 32.

(** ** Text of a sidecar file: [fprintf] and [fscanf] *)

Definition text := list ascii.

Definition digit_char (d : Z) : ascii := ascii_of_nat (48 + Z.to_nat d).

(** The digits of [n] in [base], most significant first; at least one digit. *)
Fixpoint print_digits (base : Z) (fuel : nat) (n : Z) : text :=
  match fuel with
  | O => []
  | S f =>
      (if n / base =? 0 then [] else print_digits base f (n / base))
        ++ [digit_char (n mod base)]
  end.

(** 64 digits are enough for every 64-bit value in every base. *)
Definition print_unsigned (base n : Z) : text := print_digits base 64 n.

(** [%o] of an [unsigned int]. *)
Definition printf_o (x : Z) : text := print_unsigned 8 (wrap32 x).

(** [%d]: the argument is read as an [int], so a [uint32_t] above [INT_MAX]
    prints as a negative number. *)
Definition printf_d (x : Z) : text :=
  let v := signed32 x in
  if v <? 0 then "-"%char :: print_unsigned 10 (- v) else print_unsigned 10 v.

(** [isspace] in the C locale. *)
Definition isspace (c : ascii) : bool :=
  let n := nat_of_ascii c in
  (n =? 32)%nat || ((9 <=? n)%nat && (n <=? 13)%nat).

Fixpoint skip_ws (inp : text) : text :=
  match inp with
  | c :: r => if isspace c then skip_ws r else inp
  | [] => []
  end.

Definition digit_val (base : Z) (c : ascii) : option Z :=
  let n := Z.of_nat (nat_of_ascii c) - 48 in
  if (0 <=? n) && (n <? base) then Some n else None.

Fixpoint scan_digits (base : Z) (inp : text) (acc : Z) : Z * text :=
  match inp with
  | c :: r =>
      match digit_val base c with
      | Some d => scan_digits base r (acc * base + d)
      | None => (acc, inp)
      end
  | [] => (acc, [])
  end.

(** Outcome of one conversion: a value and the rest of the stream, or no
    conversion, with what is left of the stream and whether the stream ended
    (an input failure) or a character did not fit (a matching failure). *)
Inductive conv (A : Type) : Type :=
  | Conv (v : A) (rest : text)
  | NoConv (rest : text) (eof : bool).
Arguments Conv {A} v rest.
Arguments NoConv {A} rest eof.

(** [%o] and [%d]: white space is skipped, then an optional sign and at least
    one digit are read; the result is the number the characters denote, of
    any size ([strtoul_range] and [strtol_range] below bring it into the
    destination). The stream ending before any character of the number is an
    input failure; a sign with no digit after it, be it at the end of the
    stream, is a matching failure. *)
Definition scan_int (base : Z) (inp : text) : conv Z :=
  match skip_ws inp with
  | [] => NoConv [] true
  | c :: r1 =>
      let '(neg, r2) :=
        if Ascii.eqb c "-" then (true, r1)
        else if Ascii.eqb c "+" then (false, r1)
        else (false, c :: r1) in
      match r2 with
      | [] => NoConv [] false
      | d :: _ =>
          match digit_val base d with
          | None => NoConv r2 false
          | Some _ =>
              let '(v, r3) := scan_digits base r2 0 in
              Conv (if neg : bool then - v else v) r3
          end
      end
  end.

(** The numbers that [fscanf] of glibc hands to the destinations of [%o] and
    [%d] where [long] has 64 bits: the digits go through [strtoul] and
    [strtol], which answer a number out of the range of [unsigned long] or
    [long] with the bound it exceeds, and the result is then cut to the 32
    bits of the destination ([wrap32], [signed32]). C leaves such input
    undefined. *)
Definition strtoul_range (v : Z) : Z :=
  if 2 ^ 64 - 1 <? Z.abs v then 2 ^ 64 - 1 else v.

Definition strtol_range (v : Z) : Z :=
  Z.max (- 2 ^ 63) (Z.min v (2 ^ 63 - 1)).

Fixpoint take_word (inp : text) : text * text :=
  match inp with
  | c :: r =>
      if isspace c then ([], inp)
      else let '(w, r') := take_word r in (c :: w, r')
  | [] => ([], [])
  end.

(** [%s] without a field width: white space is skipped, then all the
    characters up to the next white space are read, however many. Whether
    they fit the destination is decided where the destination is known, in
    [fscanf_fattrs]. *)
Definition scan_word (inp : text) : conv text :=
  match skip_ws inp with
  | [] => NoConv [] true
  | r => let '(w, r') := take_word r in Conv w r'
  end.

(** A literal character of the format. *)
Definition scan_lit (c : ascii) (inp : text) : conv unit :=
  match inp with
  | [] => NoConv [] true
  | x :: r => if Ascii.eqb x c then Conv tt r else NoConv inp false
  end.

Definition EOF : Z := -1.

(** What [fscanf(fin, "0%o:%d:%d:%d:%s\n", &mode, &uid, &gid, &reserved, cname)]
    returns, which destinations it assigned, and the rest of the stream.

    [cname] is [char cname[MAXNAMELEN]]. [MAXNAMELEN] comes from a header
    of the platform and differs between platforms, so it is a parameter of
    the functions that depend on it. [%s] stores the word it read and a
    terminating NUL: a word of [MAXNAMELEN] characters or more is written
    past the end of the array, which C leaves undefined; [fscanf_fattrs]
    answers [None] in that case. *)
Record scanned : Type := Scanned {
  sc_ret : Z;
  sc_mode : option Z;
  sc_uid : option Z;
  sc_gid : option Z;
  sc_reserved : option Z;
  sc_cname : option text;
  sc_rest : text
}.

Definition fscanf_fattrs (MAXNAMELEN : nat) (inp : text) : option scanned :=
  match scan_lit "0" inp with
  | NoConv r eof =>
      Some (Scanned (if eof then EOF else 0) None None None None None r)
  | Conv _ r0 =>
  match scan_int 8 r0 with
  | NoConv r eof =>
      Some (Scanned (if eof then EOF else 0) None None None None None r)
  | Conv m r1 =>
  let m := Some (wrap32 (strtoul_range m)) in
  match scan_lit ":" r1 with
  | NoConv r _ => Some (Scanned 1 m None None None None r)
  | Conv _ r2 =>
  match scan_int 10 r2 with
  | NoConv r _ => Some (Scanned 1 m None None None None r)
  | Conv u r3 =>
  let u := Some (wrap32 (strtol_range u)) in
  match scan_lit ":" r3 with
  | NoConv r _ => Some (Scanned 2 m u None None None r)
  | Conv _ r4 =>
  match scan_int 10 r4 with
  | NoConv r _ => Some (Scanned 2 m u None None None r)
  | Conv g r5 =>
  let g := Some (wrap32 (strtol_range g)) in
  match scan_lit ":" r5 with
  | NoConv r _ => Some (Scanned 3 m u g None None r)
  | Conv _ r6 =>
  match scan_int 10 r6 with
  | NoConv r _ => Some (Scanned 3 m u g None None r)
  | Conv o r7 =>
  let o := Some (signed32 (strtol_range o)) in
  match scan_lit ":" r7 with
  | NoConv r _ => Some (Scanned 4 m u g o None r)
  | Conv _ r8 =>
  match scan_word r8 with
  | NoConv r _ => Some (Scanned 4 m u g o None r)
  | Conv w r9 =>
      if (length w <? MAXNAMELEN)%nat
      then Some (Scanned 5 m u g o (Some w) (skip_ws r9))
      else None
  end end end end end end end end end end.

(** A C string ends at its first NUL character. *)
Fixpoint c_str (s : text) : text :=
  match s with
  | c :: r => if Ascii.eqb c zero then [] else c :: c_str r
  | [] => []
  end.

(** ** [FileAttrs] *)

Record FileAttrs : Type := mkFileAttrs {
  mode : Z;        (* uint32_t *)
  uid : Z;         (* uint32_t *)
  gid : Z;         (* uint32_t *)
  size : Z;        (* uint32_t *)
  atime_sec : Z;   (* uint32_t *)
  atime_nsec : Z;  (* uint32_t *)
  mtime_sec : Z;   (* uint32_t *)
  mtime_nsec : Z;  (* uint32_t *)
  reserved : Z     (* int *)
}.

Global Instance FileAttrs_eq_dec : EqDecision FileAttrs.
Proof. solve_decision. Defined.

(** [struct stat], the fields the file table reads or writes. [mode_t],
    [uid_t] and [gid_t] are taken to be 32 bits wide, [dev_t] and [ino_t] at
    most 64. *)
Record HostStat : Type := mkHostStat {
  st_dev : Z;
  st_ino : Z;
  st_mode : Z;
  st_uid : Z;
  st_gid : Z;
  st_size : Z;
  st_atime_sec : Z;
  st_atime_nsec : Z;
  st_mtime_sec : Z;
  st_mtime_nsec : Z
}.

(** [S_IFMT] of [<sys/stat.h>]: the file-type bits of a mode, octal 0170000. *)
Definition S_IFMT : Z := 61440.

(** The constructor of [FileAttrs] from a [struct stat]. *)
Definition FileAttrs_of_stat (st : HostStat) : FileAttrs :=
  {| mode := wrap32 (st_mode st);
     uid := wrap32 (st_uid st);
     gid := wrap32 (st_gid st);
     size := wrap32 (st_size st);
     atime_sec := wrap32 (st_atime_sec st);
     atime_nsec := wrap32 (st_atime_nsec st);
     mtime_sec := wrap32 (st_mtime_sec st);
     mtime_nsec := wrap32 (st_mtime_nsec st);
     reserved := 0 |}.

(** [FileAttrs::Update]: every field is overwritten. *)
Definition FileAttrs_Update (this attrs : FileAttrs) : FileAttrs :=
  {| mode := mode attrs;
     uid := uid attrs;
     gid := gid attrs;
     size := size attrs;
     atime_sec := atime_sec attrs;
     atime_nsec := atime_nsec attrs;
     mtime_sec := mtime_sec attrs;
     mtime_nsec := mtime_nsec attrs;
     reserved := reserved attrs |}.

(** The copy constructor: [Update] on a fresh object. *)
Definition FileAttrs_copy (attrs : FileAttrs) : FileAttrs :=
  FileAttrs_Update attrs attrs.

(** [FileAttrs::Valid]. *)
Definition Valid (statval : Z) : bool := negb (statval =? 4294967295).

(** [FileAttrs::Write]: one line of the sidecar file. *)
Definition FileAttrs_Write (this : FileAttrs) (name : string) : text :=
  "0"%char :: printf_o (mode this)
    ++ ":"%char :: printf_d (uid this)
    ++ ":"%char :: printf_d (gid this)
    ++ ":"%char :: printf_d (reserved this)
    ++ ":"%char :: c_str (list_ascii_of_string name)
    ++ ["010"%char].

(** What an object and a stack buffer hold before anything is stored in
    them. [FileAttrs::FileAttrs(FILE*, string&)] initialises no field and
    declares [cname] without an initialiser, so both show through whenever
    [fscanf] does not assign them. *)
Record Uninit : Type := mkUninit {
  u_attrs : FileAttrs;
  u_cname : text
}.

(** [FileAttrs::FileAttrs(FILE* fin, string& name)]: the new object, the
    caller's [name] afterwards and the rest of the stream. [name] is assigned
    from [cname] whenever [fscanf] returns non-zero, which includes [EOF].
    [None]: [fscanf] wrote past the end of [cname]. *)
Definition FileAttrs_read (MAXNAMELEN : nat) (u : Uninit) (name : string)
    (fin : text) : option (FileAttrs * string * text) :=
  sc ← fscanf_fattrs MAXNAMELEN fin;
  let j := u_attrs u in
  let this :=
    {| mode := default (mode j) (sc_mode sc);
       uid := default (uid j) (sc_uid sc);
       gid := default (gid j) (sc_gid sc);
       size := size j;
       atime_sec := atime_sec j;
       atime_nsec := atime_nsec j;
       mtime_sec := mtime_sec j;
       mtime_nsec := mtime_nsec j;
       reserved := default (reserved j) (sc_reserved sc) |} in
  let cname := default (u_cname u) (sc_cname sc) in
  Some (this,
        if sc_ret sc =? 0 then name else string_of_list_ascii (c_str cname),
        sc_rest sc).

(** [filename]: what follows the last slash or backslash (character 92),
    the whole path when there is none. *)
Definition is_sep (c : ascii) : bool :=
  Ascii.eqb c "/" || Ascii.eqb c "092".

Fixpoint after_last_sep (s : string) : option string :=
  match s with
  | EmptyString => None
  | String c r =>
      match after_last_sep r with
      | Some t => Some t
      | None => if is_sep c then Some r else None
      end
  end.

Definition filename (path : string) : string :=
  default path (after_last_sep path).

(** [dirname] of [<libgen.h>] as glibc implements it: trailing slashes and
    the last component are dropped, then the slashes before it; a path
    without a directory part gives ["."]. Where nothing but slashes is left
    the result is ["/"], except that exactly two slashes give ["//"] (POSIX
    leaves that case to the implementation). *)
Definition is_slash (c : ascii) : bool := Ascii.eqb c "/".

Fixpoint drop_while (f : ascii -> bool) (l : text) : text :=
  match l with
  | c :: r => if f c then drop_while f r else l
  | [] => []
  end.

(** The result for a path or a directory part made of [n] slashes and
    nothing else. *)
Definition root_of (n : nat) : string :=
  if (n =? 2)%nat then "//"%string else "/"%string.

Definition dirname (path : string) : string :=
  match list_ascii_of_string path with
  | [] => "."%string
  | cs =>
      match drop_while is_slash (rev cs) with
      | [] => root_of (length cs)
      | r1 =>
          match drop_while (fun c => negb (is_slash c)) r1 with
          | [] => "."%string
          | r2 =>
              match drop_while is_slash r2 with
              | [] => root_of (length r2)
              | r3 => string_of_list_ascii (rev r3)
              end
          end
      end
  end.

(** [MAXPATHLEN] of [<sys/param.h>], as glibc defines it. *)
Definition MAXPATHLEN : Z := 4096.

Definition FILE_TABLE_NAME : string := ".nfsd_fattrs".

(** ** The host *)

Record Host : Type := mkHost {
  (** [realpath(path, NULL)]; [None] is the null result. *)
  realpath : string -> option string;
  (** [stat(path, &buf)]: the filled buffer, or [None] when it fails. *)
  host_stat : string -> option HostStat;
  (** The entries the read loop of [FileAttrDB]'s constructor stores for the
      sidecar file at this path (empty when [fopen] fails). The loop itself
      is [FileAttrDB_load] below, on the text of the file; it depends on
      uninitialised memory, may write past a buffer and need not end, so the
      file table takes its outcome from the host ([FileAttrDB_open_new]
      relates the two). *)
  sidecar : string -> gmap string FileAttrs;
  (** Whether [fopen(path, "w")] succeeds. *)
  fopen_w : string -> bool;
  (** What an uninitialised [struct stat] on the stack holds. *)
  uninit_stat : HostStat;
  (** What the stack holds from the last byte of the array [tmp] of
      [FileTable::GetDB] on: [strncpy] never writes that byte. *)
  uninit_tmp : text
}.

(** [canonicalize]. *)
Definition canonicalize (host : Host) (path : string) : string :=
  match realpath host path with
  | Some rpath => rpath
  | None => path
  end.

(** ** File handles *)

(** [rotl] on [uint64_t]. *)
Definition rotl (x n : Z) : Z :=
  Z.lor (wrap64 (Z.shiftl x n)) (Z.shiftr x (64 - n)).

(** [make_file_handle]. *)
Definition make_file_handle (fstat : HostStat) : Z :=
  let result := wrap64 (st_dev fstat) in
  let result := Z.lxor (rotl result 32) (wrap64 (st_ino fstat)) in
  if result =? 0 then wrap64 (Z.lnot result) else result.

(** ** [FileAttrDB]: the overlay records of one directory *)

Record FileAttrDB : Type := mkFileAttrDB {
  db_path : string;
  attrs : gmap string (option FileAttrs)
}.

(** How the read loop of [FileAttrDB]'s constructor goes: it ends, it writes
    past the end of [cname], or it is still running when the fuel is
    spent. *)
Inductive outcome (A : Type) : Type :=
  | Done (a : A)
  | Overflow
  | Running.
Arguments Done {A} a.
Arguments Overflow {A}.
Arguments Running {A}.

(** The read loop of [FileAttrDB]'s constructor over the text of the sidecar
    file. Each turn constructs one [FileAttrs] from the stream, with the
    uninitialised memory [junk i] of that turn, and stops when the name comes
    back empty. *)
Fixpoint FileAttrDB_load (MAXNAMELEN : nat) (fuel : nat) (junk : nat -> Uninit)
    (i : nat) (file : text) (m : gmap string (option FileAttrs))
  : outcome (gmap string (option FileAttrs)) :=
  match fuel with
  | O => Running
  | S fuel' =>
      match FileAttrs_read MAXNAMELEN (junk i) EmptyString file with
      | None => Overflow
      | Some (fattrs, fname, rest) =>
          if (String.length fname =? 0)%nat then Done m
          else FileAttrDB_load MAXNAMELEN fuel' junk (S i) rest
                 (<[fname := Some fattrs]> m)
      end
  end.

(** [FileAttrDB::FileAttrDB], given what [fopen(path, "r")] yields. *)
Definition FileAttrDB_open (MAXNAMELEN : nat) (fuel : nat)
    (junk : nat -> Uninit) (directory : string) (file : option text)
  : outcome FileAttrDB :=
  let path := String.append directory (String.append "/" FILE_TABLE_NAME) in
  match file with
  | Some txt =>
      match FileAttrDB_load MAXNAMELEN fuel junk 0 txt ∅ with
      | Done m => Done (mkFileAttrDB path m)
      | Overflow => Overflow
      | Running => Running
      end
  | None => Done (mkFileAttrDB path ∅)
  end.

(** The same constructor inside the file table, which takes the outcome of
    the read loop from the host. *)
Definition FileAttrDB_new (host : Host) (directory : string) : FileAttrDB :=
  let path := String.append directory (String.append "/" FILE_TABLE_NAME) in
  mkFileAttrDB path (Some <$> sidecar host path).

(** [FileAttrDB::GetFileAttrs]: [attrs[filename(path)]]. Subscripting a
    [std::map] inserts a value-initialised element (a null pointer) when the
    key is missing. *)
Definition FileAttrDB_GetFileAttrs (path : string) (db : FileAttrDB)
  : option FileAttrs * FileAttrDB :=
  let fname := filename path in
  match attrs db !! fname with
  | Some p => (p, db)
  | None => (None, mkFileAttrDB (db_path db) (<[fname := None]> (attrs db)))
  end.

(** [FileAttrDB::SetFileAttrs]. The flag tells whether [ft.Dirty(this)] was
    called. [None]: [Update] was called through a null pointer. *)
Definition FileAttrDB_SetFileAttrs (path : string) (fattrs : FileAttrs)
    (db : FileAttrDB) : option (FileAttrDB * bool) :=
  let fname := filename path in
  if bool_decide (fname = "."%string) || bool_decide (fname = ".."%string)
  then Some (db, false)
  else
    match attrs db !! fname with
    | None =>
        Some (mkFileAttrDB (db_path db)
                (<[fname := Some (FileAttrs_copy fattrs)]> (attrs db)),
              true)
    | Some (Some old) =>
        Some (mkFileAttrDB (db_path db)
                (<[fname := Some (FileAttrs_Update old fattrs)]> (attrs db)),
              true)
    | Some None => None
    end.

(** [FileAttrDB::Remove]. *)
Definition FileAttrDB_Remove (path : string) (db : FileAttrDB)
  : FileAttrDB * bool :=
  let fname := filename path in
  match attrs db !! fname with
  | Some _ => (mkFileAttrDB (db_path db) (delete fname (attrs db)), true)
  | None => (db, false)
  end.

(** The order in which a [std::map<std::string, _>] is traversed. *)
Definition key_le (x y : string * option FileAttrs) : Prop :=
  String.leb x.1 y.1 = true.

Global Instance key_le_dec x y : Decision (key_le x y).
Proof. unfold key_le. apply _. Defined.

Definition in_order (m : gmap string (option FileAttrs))
  : list (string * option FileAttrs) :=
  merge_sort key_le (map_to_list m).

(** One turn of the loop of [FileAttrDB::Write]: a record is written, a null
    entry is erased. *)
Definition write_entry (acc : text * gmap string (option FileAttrs))
    (e : string * option FileAttrs) : text * gmap string (option FileAttrs) :=
  match e.2 with
  | Some a => (acc.1 ++ FileAttrs_Write a e.1, acc.2)
  | None => (acc.1, delete e.1 acc.2)
  end.

(** [FileAttrDB::Write]: the store afterwards and, when the file was opened,
    the text it now holds. *)
Definition FileAttrDB_Write (host : Host) (db : FileAttrDB)
  : FileAttrDB * option text :=
  if (0 <? base.size (attrs db))%nat then
    if fopen_w host (db_path db) then
      let '(txt, m) := foldl write_entry ([], attrs db) (in_order (attrs db)) in
      (mkFileAttrDB (db_path db) m, Some txt)
    else (db, None)
  else (db, None).

(** ** [FileTable]: the coordinator *)

Record FileTable : Type := mkFileTable {
  path2handle : gmap string Z;
  handle2path : gmap Z string;
  path2db : gmap string FileAttrDB;
  dirty : gset string
}.

(** The table as its constructor leaves it. *)
Definition FileTable_init : FileTable := mkFileTable ∅ ∅ ∅ ∅.

Definition set_path2db (s : FileTable) (k : string) (db : FileAttrDB)
  : FileTable :=
  mkFileTable (path2handle s) (handle2path s) (<[k := db]> (path2db s))
    (dirty s).

(** [FileTable::Dirty]. *)
Definition FileTable_Dirty (db : string) (s : FileTable) : FileTable :=
  mkFileTable (path2handle s) (handle2path s) (path2db s) ({[db]} ∪ dirty s).

(** The store after a call on it, marked dirty when the call asked for it. *)
Definition store_back (s : FileTable) (k : string) (r : FileAttrDB * bool)
  : FileTable :=
  let s' := set_path2db s k r.1 in
  if r.2 then FileTable_Dirty k s' else s'.

(** The C string that [tmp] holds after
    [strncpy(tmp, path.c_str(), MAXPATHLEN-1)] in [FileTable::GetDB]. A path
    of fewer than [MAXPATHLEN-1] characters is copied whole and padded with
    NULs. Of a longer one the first [MAXPATHLEN-1] characters are copied and
    no NUL is stored; the one byte of [tmp] left was never written, so the
    string runs on through [uninit_tmp host] to the first NUL there. *)
Definition GetDB_tmp (host : Host) (path : string) : string :=
  let src := c_str (list_ascii_of_string path) in
  string_of_list_ascii
    (if Z.of_nat (length src) <? MAXPATHLEN - 1 then src
     else take (Z.to_nat (MAXPATHLEN - 1)) src ++ c_str (uninit_tmp host)).

(** [dirname(tmp)]: the key under which [GetDB] files the store of a
    canonical path. *)
Definition dbdir (host : Host) (path : string) : string :=
  dirname (GetDB_tmp host path).

(** [FileTable::GetDB]: the store of the directory of the path (its key in
    [path2db] and its current content), created on first use. *)
Definition GetDB (host : Host) (_path : string) (s : FileTable)
  : string * FileAttrDB * FileTable :=
  let path := canonicalize host _path in
  let dbdir := dbdir host path in
  match path2db s !! dbdir with
  | Some result => (dbdir, result, s)
  | None =>
      let result := FileAttrDB_new host dbdir in
      (dbdir, result, set_path2db s dbdir result)
  end.

(** [FileTable::GetFileAttrs]. *)
Definition GetFileAttrs (host : Host) (path : string) (s : FileTable)
  : option FileAttrs * FileTable :=
  let '(k, db, s1) := GetDB host path s in
  let '(p, db') := FileAttrDB_GetFileAttrs path db in
  (p, set_path2db s1 k db').

(** [FileTable::SetFileAttrs]. *)
Definition SetFileAttrs (host : Host) (path : string) (fstat : FileAttrs)
    (s : FileTable) : option FileTable :=
  let '(k, db, s1) := GetDB host path s in
  r ← FileAttrDB_SetFileAttrs path fstat db;
  Some (store_back s1 k r).

(** The three assignments of [FileTable::Stat] under [if(attrs)]. *)
Definition overlay (a : FileAttrs) (fstat : HostStat) : HostStat :=
  mkHostStat (st_dev fstat) (st_ino fstat)
    (if Valid (mode a) then Z.lor (mode a) (Z.land (st_mode fstat) S_IFMT)
     else st_mode fstat)
    (if Valid (uid a) then uid a else st_uid fstat)
    (if Valid (gid a) then gid a else st_gid fstat)
    (st_size fstat) (st_atime_sec fstat) (st_atime_nsec fstat)
    (st_mtime_sec fstat) (st_mtime_nsec fstat).

(** [FileTable::Stat]. [buf] is what the caller's buffer holds before the
    call; a failing [stat] leaves it as it is. *)
Definition Stat (host : Host) (_path : string) (buf : HostStat)
    (s : FileTable) : Z * HostStat * FileTable :=
  let path := canonicalize host _path in
  let '(result, fstat) :=
    match host_stat host path with
    | Some st => (0, st)
    | None => (-1, buf)
    end in
  let '(p, s') := GetFileAttrs host path s in
  match p with
  | Some a => (result, overlay a fstat, s')
  | None => (result, fstat, s')
  end.

(** [FileTable::GetFileHandle]. *)
Definition GetFileHandle (host : Host) (_path : string) (s : FileTable)
  : Z * FileTable :=
  let path := canonicalize host _path in
  match path2handle s !! path with
  | Some h => (h, s)
  | None =>
      match host_stat host path with
      | Some fstat =>
          let result := make_file_handle fstat in
          (result,
           mkFileTable (<[path := result]> (path2handle s))
             (<[result := path]> (handle2path s)) (path2db s) (dirty s))
      | None => (0, s)
      end
  end.

(** [FileTable::GetAbsolutePath]: [Some] is [true] with the result stored. *)
Definition GetAbsolutePath (handle : Z) (s : FileTable) : option string :=
  handle2path s !! handle.

(** The store of [path] after [GetDB(path)->Remove(path)]. *)
Definition remove_attrs (host : Host) (path : string) (s : FileTable)
  : FileTable :=
  let '(k, db, s1) := GetDB host path s in
  store_back s1 k (FileAttrDB_Remove path db).

(** [FileTable::Move]. *)
Definition Move (host : Host) (_pathFrom _pathTo : string) (s : FileTable)
  : option FileTable :=
  let pathFrom := canonicalize host _pathFrom in
  let pathTo := canonicalize host _pathTo in
  match path2handle s !! pathFrom with
  | None => Some s
  | Some handle =>
      let '(statResult, fstat, s1) :=
        Stat host pathFrom (uninit_stat host) s in
      let s2 :=
        mkFileTable
          (<[pathTo := handle]> (delete pathFrom (path2handle s1)))
          (<[handle := pathTo]> (delete handle (handle2path s1)))
          (path2db s1) (dirty s1) in
      s3 ← (if statResult =? 0
            then SetFileAttrs host pathTo (FileAttrs_of_stat fstat) s2
            else Some s2);
      Some (remove_attrs host pathFrom s3)
  end.

(** [FileTable::Remove]. *)
Definition Remove (host : Host) (_path : string) (s : FileTable) : FileTable :=
  let path := canonicalize host _path in
  match path2handle s !! path with
  | None => s
  | Some handle =>
      remove_attrs host path
        (mkFileTable (delete path (path2handle s))
           (delete handle (handle2path s)) (path2db s) (dirty s))
  end.

(** One turn of the loop of [FileTable::Write]: the store is flushed; what it
    wrote, if anything, is appended to the files written so far. *)
Definition write_db (host : Host)
    (acc : gmap string FileAttrDB * list (string * text)) (k : string)
  : gmap string FileAttrDB * list (string * text) :=
  match acc.1 !! k with
  | Some db =>
      let '(db', out) := FileAttrDB_Write host db in
      (<[k := db']> acc.1,
       match out with
       | Some txt => acc.2 ++ [(db_path db, txt)]
       | None => acc.2
       end)
  | None => acc
  end.

(** [FileTable::Write]: the table afterwards and the files it wrote, each
    with its new content. *)
Definition Write (host : Host) (s : FileTable)
  : FileTable * list (string * text) :=
  let '(dbs, out) :=
    foldl (write_db host) (path2db s, []) (elements (dirty s)) in
  (mkFileTable (path2handle s) (handle2path s) dbs ∅, out).

(** One turn of the loop of [FileTable::Run], the sleep apart. *)
Definition Run_step (host : Host) (s : FileTable)
  : FileTable * list (string * text) :=
  if negb (base.size (dirty s) =? 0)%nat then Write host s else (s, []).

(** ** Calls from the protocol layer and the maintenance thread *)

Inductive call : Type :=
  | CallStat (path : string) (buf : HostStat)
  | CallGetFileHandle (path : string)
  | CallMove (pathFrom pathTo : string)
  | CallRemove (path : string)
  | CallSetFileAttrs (path : string) (fstat : FileAttrs)
  | CallGetFileAttrs (path : string)
  | CallRun.

(** The table after one call made while the host is [host]; [None] when the
    call crashes. *)
Definition step (host : Host) (c : call) (s : FileTable) : option FileTable :=
  match c with
  | CallStat path buf => Some (Stat host path buf s).2
  | CallGetFileHandle path => Some (GetFileHandle host path s).2
  | CallMove pathFrom pathTo => Move host pathFrom pathTo s
  | CallRemove path => Some (Remove host path s)
  | CallSetFileAttrs path fstat => SetFileAttrs host path fstat s
  | CallGetFileAttrs path => Some (GetFileAttrs host path s).2
  | CallRun => Some (Run_step host s).1
  end.

(** A sequence of calls, each with the host as it is at that moment. *)
Fixpoint run (cs : list (Host * call)) (s : FileTable) : option FileTable :=
  match cs with
  | [] => Some s
  | (host, c) :: cs' => s' ← step host c s; run cs' s'
  end.


(** ** Vocabulary of the properties *)

(** The two maps of the registry are inverses of each other. *)
Definition inv_maps (m1 : gmap string Z) (m2 : gmap Z string) : Prop :=
  forall p h, m1 !! p = Some h <-> m2 !! h = Some p.

Definition inverse (s : FileTable) : Prop :=
  inv_maps (path2handle s) (handle2path s).

(** A call that does not collide with the registry: [GetFileHandle] does not
    derive, for an unregistered path, a handle that [handle2path] already
    binds, and [Move] does not target a path registered under another
    handle. *)
Definition collision_free (host : Host) (c : call) (s : FileTable) : bool :=
  match c with
  | CallGetFileHandle p =>
      let path := canonicalize host p in
      match path2handle s !! path, host_stat host path with
      | None, Some fstat =>
          bool_decide (handle2path s !! make_file_handle fstat = None)
      | _, _ => true
      end
  | CallMove pathFrom pathTo =>
      let pathFrom := canonicalize host pathFrom in
      let pathTo := canonicalize host pathTo in
      match path2handle s !! pathFrom with
      | Some _ =>
          bool_decide (pathTo = pathFrom)
          || bool_decide (path2handle s !! pathTo = None)
      | None => true
      end
  | _ => true
  end.

(** A sequence of calls that completes, none of which collides. *)
Fixpoint collision_free_run (cs : list (Host * call)) (s : FileTable) : Prop :=
  match cs with
  | [] => True
  | (host, c) :: cs' =>
      collision_free host c s = true /\
      match step host c s with
      | Some s' => collision_free_run cs' s'
      | None => False
      end
  end.

(** A table that some sequence of calls leads to from the initial one. *)
Definition reached (s : FileTable) : Prop :=
  exists cs, run cs FileTable_init = Some s.

(** What one entry of a store contributes to the text of the sidecar file. *)
Definition render (e : string * option FileAttrs) : text :=
  match e.2 with
  | Some a => FileAttrs_Write a e.1
  | None => []
  end.

(** The records of a store, in the order of the keys, and the text of a
    sidecar file that holds them. *)
Definition records (m : gmap string (option FileAttrs))
  : list (string * FileAttrs) :=
  omap (fun e => a ← e.2; Some (e.1, a)) (in_order m).

Definition file_text (l : list (string * FileAttrs)) : text :=
  concat ((fun e => FileAttrs_Write e.2 e.1) <$> l).

(** What the flush of the store under key [k] adds to the files written. *)
Definition written (host : Host) (dbs : gmap string FileAttrDB) (k : string)
  : option (string * text) :=
  db ← dbs !! k;
  txt ← (FileAttrDB_Write host db).2;
  Some (db_path db, txt).

(** A name that [%s] writes and reads back whole: not empty, free of white
    space and of NUL. *)
Definition scannable (name : string) : bool :=
  match list_ascii_of_string name with
  | [] => false
  | cs => forallb (fun c => negb (isspace c) && negb (Ascii.eqb c zero)) cs
  end.

(** The fields of a record hold values of their C types. *)
Definition wf_attrs (a : FileAttrs) : Prop :=
  0 <= mode a < 2 ^ 32 /\ 0 <= uid a < 2 ^ 32 /\ 0 <= gid a < 2 ^ 32 /\
  - 2 ^ 31 <= reserved a < 2 ^ 31.

(** The record that the constructor builds from the line written for [a]:
    the four fields of the line, and uninitialised memory in the others. *)
Definition reloaded (u : Uninit) (a : FileAttrs) : FileAttrs :=
  {| mode := wrap32 (mode a);
     uid := wrap32 (uid a);
     gid := wrap32 (gid a);
     size := size (u_attrs u);
     atime_sec := atime_sec (u_attrs u);
     atime_nsec := atime_nsec (u_attrs u);
     mtime_sec := mtime_sec (u_attrs u);
     mtime_nsec := mtime_nsec (u_attrs u);
     reserved := signed32 (reserved a) |}.

(** The store after the read loop has taken the records [l] one by one. *)
Fixpoint load_records (junk : nat -> Uninit) (i : nat)
    (l : list (string * FileAttrs)) (m : gmap string (option FileAttrs))
  : gmap string (option FileAttrs) :=
  match l with
  | [] => m
  | e :: l' =>
      load_records junk (S i) l' (<[e.1 := Some (reloaded (junk i) e.2)]> m)
  end.

(** ** Concrete hosts, tables and stores *)

(** The [stat] of a file of user 501 and group 20. *)
Definition stat_of (dev ino md : Z) : HostStat :=
  mkHostStat dev ino md 501 20 0 0 0 0 0.

Definition stat_zero : HostStat := mkHostStat 0 0 0 0 0 0 0 0 0 0.

(** Mode of a regular file with permissions 0644, and of a directory with
    permissions 0755. *)
Definition mode_reg_644 : Z := 33188.
Definition mode_dir_755 : Z := 16877.

(** A directory [/d] with the files [a], [b] and [c], none of them a symbolic
    link; [a] and [b] are two hard links to one inode. No sidecar file exists
    and every file opens for writing. *)
Definition host_links : Host :=
  mkHost
    (fun p =>
       if bool_decide (p = "/d/a"%string) || bool_decide (p = "/d/b"%string)
          || bool_decide (p = "/d/c"%string)
       then Some p else None)
    (fun p =>
       if bool_decide (p = "/d/a"%string) then Some (stat_of 1 10 mode_reg_644)
       else if bool_decide (p = "/d/b"%string) then Some (stat_of 1 10 mode_reg_644)
       else if bool_decide (p = "/d/c"%string) then Some (stat_of 1 12 mode_reg_644)
       else None)
    (fun p => ∅)
    (fun p => true)
    stat_zero [].

(** The same directory, where no file opens for writing. *)
Definition host_readonly : Host :=
  mkHost (realpath host_links) (host_stat host_links) (sidecar host_links)
    (fun p => false) stat_zero [].

(** A directory [/d] holding the single file whose path is given, with the
    given inode. *)
Definition host_one (name : string) (ino : Z) : Host :=
  mkHost
    (fun p => if bool_decide (p = name) then Some p else None)
    (fun p => if bool_decide (p = name) then Some (stat_of 1 ino mode_reg_644)
              else None)
    (fun p => ∅)
    (fun p => true)
    stat_zero [].

(** [/e/file] is a regular file and [/d/link] a symbolic link to it. *)
Definition host_symlink : Host :=
  mkHost
    (fun p =>
       if bool_decide (p = "/d/link"%string) then Some "/e/file"%string
       else if bool_decide (p = "/e/file"%string) then Some "/e/file"%string
       else None)
    (fun p =>
       if bool_decide (p = "/e/file"%string) then Some (stat_of 1 30 mode_reg_644)
       else None)
    (fun p => ∅)
    (fun p => true)
    stat_zero [].

(** An overlay record that overrides mode, uid and gid. *)
Definition attrs_of (md u g : Z) : FileAttrs :=
  mkFileAttrs md u g 0 0 0 0 0 0.

(** The table that a sequence of calls leads to (the initial table should a
    call crash; [run_from_init_reached] rules that out for the tables
    below). *)
Definition run_from_init (cs : list (Host * call)) : FileTable :=
  default FileTable_init (run cs FileTable_init).

(** [/d/a] has a handle, [/d/c] has an overlay record and no handle. *)
Definition table_c_overlay : FileTable :=
  run_from_init
    [(host_links, CallGetFileHandle "/d/a");
     (host_links, CallSetFileAttrs "/d/c" (attrs_of 420 7 8))].

(** Two handles were given out for the hard links [/d/a] and [/d/b]. *)
Definition table_hard_links : FileTable :=
  run_from_init
    [(host_links, CallGetFileHandle "/d/a");
     (host_links, CallGetFileHandle "/d/b")].

(** [/d/a] and [/d/c] have handles; then [/d/c] is renamed over [/d/a] on the
    host and in the table. *)
Definition table_renamed_over : FileTable :=
  run_from_init
    [(host_links, CallGetFileHandle "/d/a");
     (host_links, CallGetFileHandle "/d/c");
     (host_one "/d/a" 12, CallMove "/d/c" "/d/a")].

(** The handles [make_file_handle] derives for inodes 10 and 12 of device 1. *)
Definition handle_10 : Z := 4294967306.
Definition handle_12 : Z := 4294967308.

(** [/d/link] has a handle; overlay records were set through [/d/link] and
    through its target [/e/file]. *)
Definition table_symlink : FileTable :=
  run_from_init
    [(host_symlink, CallGetFileHandle "/d/link");
     (host_symlink, CallSetFileAttrs "/d/link" (attrs_of 420 7 8));
     (host_symlink, CallSetFileAttrs "/e/file" (attrs_of 384 7 8))].

(** [/d/a] has a handle and an overlay record. *)
Definition table_a_overlay : FileTable :=
  run_from_init
    [(host_links, CallGetFileHandle "/d/a");
     (host_links, CallSetFileAttrs "/d/a" (attrs_of 420 7 8))].

(** Calls on [/d/a], [/d/c] and [/d/x], none of which collides. *)
Definition calls_plain : list (Host * call) :=
  [(host_links, CallGetFileHandle "/d/a");
   (host_links, CallGetFileHandle "/d/c");
   (host_links, CallSetFileAttrs "/d/a" (attrs_of 420 7 8));
   (host_links, CallMove "/d/c" "/d/x");
   (host_links, CallRemove "/d/x");
   (host_links, CallRun)].

(** The sentinel of [FileAttrs::Valid]. *)
Definition no_override : Z := 4294967295.


(** [/d/a], a regular file on the host, has an overlay record whose mode is
    that of a directory. *)
Definition table_a_dir_mode : FileTable :=
  run_from_init
    [(host_links, CallSetFileAttrs "/d/a" (attrs_of mode_dir_755 7 8))].

(** [/d/gone] does not exist on the host and has an overlay record. *)
Definition table_gone_overlay : FileTable :=
  run_from_init
    [(host_links, CallSetFileAttrs "/d/gone" (attrs_of 420 7 8))].

(** [/d/a] has a handle and an overlay record; then [/d/y] is looked up and
    [/d/a] removed. No sidecar file exists in [/d]. *)
Definition calls_null_only : list (Host * call) :=
  [(host_links, CallGetFileHandle "/d/a");
   (host_links, CallSetFileAttrs "/d/a" (attrs_of 420 7 8));
   (host_links, CallGetFileAttrs "/d/y");
   (host_links, CallRemove "/d/a")].

Definition table_null_only : FileTable := run_from_init calls_null_only.

(** [/d/a] has a handle and an overlay record, and [/d/y], which has
    neither, was looked up once. *)
Definition table_y_looked_up : FileTable :=
  run_from_init
    [(host_links, CallGetFileHandle "/d/a");
     (host_links, CallSetFileAttrs "/d/a" (attrs_of 420 7 8));
     (host_links, CallGetFileAttrs "/d/y")].

(** [/d/a] has an overlay record that was never flushed. *)
Definition table_a_dirty : FileTable :=
  run_from_init [(host_links, CallSetFileAttrs "/d/a" (attrs_of 420 7 8))].

(** Uninitialised memory that happens to hold zeros. *)
Definition junk_zero : nat -> Uninit :=
  fun _ => mkUninit (mkFileAttrs 0 0 0 0 0 0 0 0 0) [].

(** A store with one record, under the given name. *)
Definition store_one (name : string) (a : FileAttrs) : FileAttrDB :=
  mkFileAttrDB "/d/.nfsd_fattrs" {[name := Some a]}.

(** The two records of the round trip that the specification describes. *)
Definition store_ab : FileAttrDB :=
  mkFileAttrDB "/d/.nfsd_fattrs"
    (<["a.txt"%string := Some (attrs_of 384 501 20)]>
       (<["b.txt"%string := Some (attrs_of 420 no_override 20)]> ∅)).

(** ** Vocabulary of the further properties *)

(** Every registered handle differs from 0, the value [GetFileHandle]
    returns when it has no handle to give. *)
Definition handles_nonzero (s : FileTable) : Prop :=
  forall p h, path2handle s !! p = Some h -> h <> 0.

(** A string without slash or backslash. *)
Fixpoint no_sep (s : string) : bool :=
  match s with
  | EmptyString => true
  | String c r => negb (is_sep c) && no_sep r
  end.

(** A file name as a directory entry has it: not empty and without slash. *)
Definition entry_name (name : string) : bool :=
  match list_ascii_of_string name with
  | [] => false
  | cs => forallb (fun c => negb (is_slash c)) cs
  end.

(** A string without NUL: a [std::string] that [c_str] hands over whole. *)
Definition no_nul (s : string) : bool :=
  forallb (fun c => negb (Ascii.eqb c zero)) (list_ascii_of_string s).

(** A directory path that does not end with a slash. *)
Definition ends_plain (dir : string) : bool :=
  match rev (list_ascii_of_string dir) with
  | c :: _ => negb (is_slash c)
  | [] => false
  end.

(** What the store under key [k] holds for the name [n], if the table has
    that store and the store that entry. *)
Definition entry (s : FileTable) (k n : string) : option (option FileAttrs) :=
  db ← path2db s !! k; attrs db !! n.

(** The sidecar file of a directory. *)
Definition sidecar_path (directory : string) : string :=
  String.append directory (String.append "/" FILE_TABLE_NAME).

(** Every store is filed under the directory whose sidecar file it writes,
    and every member of the dirty set is a store of the table. *)
Definition stores_filed (s : FileTable) : Prop :=
  (forall k db, path2db s !! k = Some db -> db_path db = sidecar_path k) /\
  (forall k, k ∈ dirty s -> is_Some (path2db s !! k)).

(** Ascending by name, in the order of [std::string]. *)
Definition name_lt (x y : string * FileAttrs) : Prop :=
  String.ltb x.1 y.1 = true.

(** * Properties *)

(** ** The definitions on small inputs *)

Example filename_of_path :
  filename "/d/a.txt" = "a.txt"%string /\ filename "a.txt" = "a.txt"%string /\
  filename "/d/" = EmptyString /\
  filename (String "d" (String "092" "a")) = "a"%string.
Proof. repeat split. Qed.

Example dirname_of_path :
  dirname "/d/a.txt" = "/d"%string /\ dirname "/a" = "/"%string /\
  dirname "a" = "."%string /\ dirname "/d/e/" = "/d"%string /\
  dirname EmptyString = "."%string /\ dirname "/" = "/"%string /\
  dirname "/d//a" = "/d"%string /\ dirname "a//" = "."%string.
Proof. repeat split. Qed.

Example dirname_of_slashes :
  dirname "//" = "//"%string /\ dirname "//a" = "//"%string /\
  dirname "//a/" = "//"%string /\ dirname "///" = "/"%string /\
  dirname "///a" = "/"%string.
Proof. repeat split. Qed.

(** The key of a store: the path is cut at its first NUL, and a path of
    [MAXPATHLEN - 1] characters or more is cut there and runs on into
    uninitialised memory (empty on this host), here in the middle of the
    name of the directory. *)
Example dbdir_of_path :
  dbdir host_links "/d/a.txt" = "/d"%string /\
  dbdir host_links (String "/" (String "d" (String zero "/e/a"))) = "/"%string /\
  (let dir := String "/" (string_of_list_ascii (replicate 4100 "d"%char)) in
   bool_decide (dirname (String.append dir "/a") = dir) = true /\
   dbdir host_links (String.append dir "/a") = "/"%string).
Proof. repeat split; vm_compute; reflexivity. Qed.

Example handles_of_inodes :
  make_file_handle (stat_of 1 10 mode_reg_644) = handle_10 /\
  make_file_handle (stat_of 1 12 mode_reg_644) = handle_12 /\
  make_file_handle (stat_of 0 0 mode_reg_644) = 2 ^ 64 - 1 /\
  make_file_handle (stat_of 1 0 mode_reg_644)
    = make_file_handle (stat_of 0 (2 ^ 32) mode_reg_644).
Proof. repeat split. Qed.

Example line_of_record :
  FileAttrs_Write (attrs_of 420 no_override 20) "b.txt"
  = list_ascii_of_string "0644:-1:20:0:b.txt" ++ ["010"%char].
Proof. vm_compute. reflexivity. Qed.

Example fscanf_of_line :
  fscanf_fattrs 256 (list_ascii_of_string "0644:-1:20:0:b.txt" ++ ["010"%char])
  = Some (Scanned 5 (Some 420) (Some no_override) (Some 20) (Some 0)
            (Some (list_ascii_of_string "b.txt")) []).
Proof. vm_compute. reflexivity. Qed.

Example fscanf_at_end_of_file :
  sc_ret <$> fscanf_fattrs 256 [] = Some EOF /\
  sc_ret <$> fscanf_fattrs 256 (list_ascii_of_string "0") = Some EOF /\
  sc_ret <$> fscanf_fattrs 256 (list_ascii_of_string "b.txt") = Some 0 /\
  sc_ret <$> fscanf_fattrs 256 (list_ascii_of_string "0-") = Some 0 /\
  sc_ret <$> fscanf_fattrs 256 (list_ascii_of_string "0644:x") = Some 1.
Proof. repeat split. Qed.

(** A name of five characters needs six bytes. *)
Example fscanf_name_too_long :
  fscanf_fattrs 5 (list_ascii_of_string "0644:-1:20:0:b.txt" ++ ["010"%char])
  = None /\
  is_Some
    (fscanf_fattrs 6 (list_ascii_of_string "0644:-1:20:0:b.txt" ++ ["010"%char])).
Proof. split; [reflexivity | by eexists]. Qed.

Example fscanf_out_of_range :
  sc_uid <$> fscanf_fattrs 256 (list_ascii_of_string "0644:4294967303:")
    = Some (Some 7) /\
  sc_uid <$> fscanf_fattrs 256 (list_ascii_of_string "0644:99999999999999999999:")
    = Some (Some 4294967295) /\
  sc_mode <$> fscanf_fattrs 256 (list_ascii_of_string "07777777777777777777777777:")
    = Some (Some 4294967295).
Proof. repeat split. Qed.

(** ** What the store operations leave alone *)

Lemma GetDB_spec host p s k db s1 :
  GetDB host p s = (k, db, s1) ->
  k = dbdir host (canonicalize host p) /\
  path2db s1 !! k = Some db /\
  path2handle s1 = path2handle s /\
  handle2path s1 = handle2path s /\
  dirty s1 = dirty s /\
  (forall k', k' <> k -> path2db s1 !! k' = path2db s !! k').
Proof.
  unfold GetDB. destruct (path2db s !! _) eqn:E; intros [= <- <- <-]; simpl.
  - by repeat split.
  - repeat split; [by rewrite lookup_insert_eq | ].
    intros k' Hk. by rewrite lookup_insert_ne.
Qed.

Lemma GetDB_cached host p s db :
  path2db s !! dbdir host (canonicalize host p) = Some db ->
  GetDB host p s = (dbdir host (canonicalize host p), db, s).
Proof. unfold GetDB. by intros ->. Qed.

Lemma store_back_handles s k r :
  path2handle (store_back s k r) = path2handle s /\
  handle2path (store_back s k r) = handle2path s.
Proof. unfold store_back. by destruct (r.2). Qed.

Lemma store_back_lookup s k r :
  path2db (store_back s k r) !! k = Some r.1.
Proof. unfold store_back. destruct (r.2); simpl; by rewrite lookup_insert_eq. Qed.

Lemma GetFileAttrs_handles host p s :
  path2handle (GetFileAttrs host p s).2 = path2handle s /\
  handle2path (GetFileAttrs host p s).2 = handle2path s /\
  dirty (GetFileAttrs host p s).2 = dirty s.
Proof.
  unfold GetFileAttrs. destruct (GetDB host p s) as [[k db] s1] eqn:E.
  apply GetDB_spec in E as (_ & _ & H1 & H2 & H3 & _).
  by destruct (FileAttrDB_GetFileAttrs p db).
Qed.

Lemma Stat_handles host p buf s :
  path2handle (Stat host p buf s).2 = path2handle s /\
  handle2path (Stat host p buf s).2 = handle2path s /\
  dirty (Stat host p buf s).2 = dirty s.
Proof.
  unfold Stat. pose proof (GetFileAttrs_handles host (canonicalize host p) s) as H.
  destruct (host_stat host _), (GetFileAttrs host _ s) as [[a|] s']; exact H.
Qed.

Lemma remove_attrs_handles host p s :
  path2handle (remove_attrs host p s) = path2handle s /\
  handle2path (remove_attrs host p s) = handle2path s.
Proof.
  unfold remove_attrs. destruct (GetDB host p s) as [[k db] s1] eqn:E.
  apply GetDB_spec in E as (_ & _ & H1 & H2 & _).
  rewrite <- H1, <- H2. apply store_back_handles.
Qed.

Lemma SetFileAttrs_handles host p a s s' :
  SetFileAttrs host p a s = Some s' ->
  path2handle s' = path2handle s /\ handle2path s' = handle2path s.
Proof.
  unfold SetFileAttrs. destruct (GetDB host p s) as [[k db] s1] eqn:E.
  apply GetDB_spec in E as (_ & _ & H1 & H2 & _).
  destruct (FileAttrDB_SetFileAttrs p a db) as [r|]; [|done].
  intros [= <-]. rewrite <- H1, <- H2. apply store_back_handles.
Qed.

(** The two maps of the registry after a completed [Move] of a registered
    path. *)
Lemma Move_handles host a b s h s' :
  path2handle s !! canonicalize host a = Some h ->
  Move host a b s = Some s' ->
  path2handle s' =
    <[canonicalize host b := h]> (delete (canonicalize host a) (path2handle s)) /\
  handle2path s' =
    <[h := canonicalize host b]> (delete h (handle2path s)).
Proof.
  unfold Move. intros ->.
  pose proof (Stat_handles host (canonicalize host a) (uninit_stat host) s) as HS.
  destruct (Stat host _ _ s) as [[res fstat] s1]. simpl in HS.
  destruct HS as (H1 & H2 & _). rewrite H1, H2.
  set (s2 := mkFileTable _ _ _ _).
  destruct (res =? 0).
  - destruct (SetFileAttrs host _ _ s2) as [s3|] eqn:E; [|done]. simpl.
    intros [= <-]. apply SetFileAttrs_handles in E as [E1 E2].
    destruct (remove_attrs_handles host (canonicalize host a) s3) as [-> ->].
    by rewrite E1, E2.
  - simpl. intros [= <-].
    by destruct (remove_attrs_handles host (canonicalize host a) s2) as [-> ->].
Qed.

Lemma Remove_handles host p s h :
  path2handle s !! canonicalize host p = Some h ->
  path2handle (Remove host p s) = delete (canonicalize host p) (path2handle s) /\
  handle2path (Remove host p s) = delete h (handle2path s).
Proof.
  unfold Remove. intros ->.
  by destruct (remove_attrs_handles host (canonicalize host p)
    (mkFileTable (delete (canonicalize host p) (path2handle s))
       (delete h (handle2path s)) (path2db s) (dirty s))) as [-> ->].
Qed.

Lemma run_from_init_reached cs :
  is_Some (run cs FileTable_init) -> reached (run_from_init cs).
Proof. intros [s E]. exists cs. unfold run_from_init. by rewrite E. Qed.

Ltac reached_by_run := apply run_from_init_reached; vm_compute; by eexists.

(** ** Move of an unregistered path *)

(** C10. If [pathFrom] has no registered handle, [Move] returns without
    changing anything: the registry, every directory store and the dirty set
    are exactly as before, so no handle is re-keyed or allocated, no overlay
    entry is copied to [pathTo] and none is deleted for [pathFrom]. *)
Theorem Move_unregistered_noop host pathFrom pathTo s :
  path2handle s !! canonicalize host pathFrom = None ->
  Move host pathFrom pathTo s = Some s.
Proof. intros Hnone. unfold Move. by rewrite Hnone. Qed.

Lemma Move_unregistered_noop_witness :
  path2handle table_c_overlay !! canonicalize host_links "/d/c" = None /\
  (GetFileAttrs host_links "/d/c" table_c_overlay).1 = Some (attrs_of 420 7 8) /\
  Move host_links "/d/c" "/d/x" table_c_overlay = Some table_c_overlay.
Proof.
  split; [reflexivity|]. split; [vm_compute; reflexivity|].
  apply (Move_unregistered_noop host_links "/d/c" "/d/x" table_c_overlay).
  reflexivity.
Defined.

(** ** Remove *)

Lemma FileAttrDB_Remove_lookup p db :
  attrs (FileAttrDB_Remove p db).1 !! filename p = None.
Proof.
  unfold FileAttrDB_Remove. destruct (attrs db !! filename p) eqn:E; simpl.
  - apply lookup_delete_eq.
  - done.
Qed.

Lemma remove_attrs_lookup host p s :
  exists db,
    path2db (remove_attrs host p s) !! dbdir host (canonicalize host p) = Some db /\
    attrs db !! filename p = None.
Proof.
  unfold remove_attrs. destruct (GetDB host p s) as [[k db] s1] eqn:E.
  apply GetDB_spec in E as (-> & _).
  eexists. split; [apply store_back_lookup | apply FileAttrDB_Remove_lookup].
Qed.

Lemma GetFileAttrs_absent host p s db :
  path2db s !! dbdir host (canonicalize host p) = Some db ->
  attrs db !! filename p = None ->
  (GetFileAttrs host p s).1 = None.
Proof.
  intros Hdb Hn. unfold GetFileAttrs. rewrite (GetDB_cached _ _ _ _ Hdb).
  unfold FileAttrDB_GetFileAttrs. by rewrite Hn.
Qed.

(** X26. After [Remove(p)] of a path that is its own canonical form and has
    a registered handle [h], neither map of the registry has an entry for
    the path or for [h], so [GetAbsolutePath(h)] finds nothing, and
    [GetFileAttrs(p)] returns null, whether or not [p] had an overlay
    record. *)
Theorem Remove_then_absent host p s h :
  path2handle s !! canonicalize host p = Some h ->
  canonicalize host p = p ->
  GetAbsolutePath h (Remove host p s) = None /\
  path2handle (Remove host p s) !! p = None /\
  handle2path (Remove host p s) !! h = None /\
  (GetFileAttrs host p (Remove host p s)).1 = None.
Proof.
  intros Hh Hc. destruct (Remove_handles host p s h Hh) as [E1 E2].
  unfold GetAbsolutePath. rewrite E1, E2, Hc, !lookup_delete_eq.
  repeat split.
  unfold Remove. rewrite Hh, Hc.
  set (s0 := mkFileTable _ _ _ _).
  destruct (remove_attrs_lookup host p s0) as (db & Hdb & Hn).
  by apply (GetFileAttrs_absent host p _ db).
Qed.

Lemma Remove_then_absent_witness :
  path2handle table_a_overlay !! canonicalize host_links "/d/a" = Some handle_10 /\
  (GetFileAttrs host_links "/d/a" table_a_overlay).1 = Some (attrs_of 420 7 8) /\
  GetAbsolutePath handle_10 (Remove host_links "/d/a" table_a_overlay) = None /\
  path2handle (Remove host_links "/d/a" table_a_overlay) !! "/d/a"%string = None /\
  handle2path (Remove host_links "/d/a" table_a_overlay) !! handle_10 = None /\
  (GetFileAttrs host_links "/d/a" (Remove host_links "/d/a" table_a_overlay)).1 = None.
Proof.
  split; [reflexivity|]. split; [vm_compute; reflexivity|].
  apply (Remove_then_absent host_links "/d/a" table_a_overlay handle_10);
    reflexivity.
Defined.

(** C7 fails on the code. [/d/link] is a symbolic link to [/e/file]: it has
    a handle, and an overlay record was set through it, which [GetFileAttrs]
    returns. [FileTable::SetFileAttrs] and [FileTable::GetFileAttrs] file the
    record under the name of the path as given, [link]; [Remove], like [Stat]
    and [Move], works on the canonical path and erases the entry under the
    name of the target, [file]. After [Remove] of the link the handle is
    gone, and [GetFileAttrs] of the link still returns the record. *)
Theorem Remove_symlink_keeps_attrs :
  reached table_symlink /\
  path2handle table_symlink !! canonicalize host_symlink "/d/link"
    = Some 4294967326 /\
  (GetFileAttrs host_symlink "/d/link" table_symlink).1
    = Some (attrs_of 420 7 8) /\
  GetAbsolutePath 4294967326 (Remove host_symlink "/d/link" table_symlink)
    = None /\
  entry (Remove host_symlink "/d/link" table_symlink) "/e" "file" = None /\
  entry (Remove host_symlink "/d/link" table_symlink) "/e" "link"
    = Some (Some (attrs_of 420 7 8)) /\
  (GetFileAttrs host_symlink "/d/link"
     (Remove host_symlink "/d/link" table_symlink)).1
    = Some (attrs_of 420 7 8).
Proof.
  split; [reached_by_run|].
  repeat split; vm_compute; reflexivity.
Qed.

(** ** Move of a registered path *)

(** C5, as amended. When [Move(A, B)] of a path registered under [h]
    completes, [h] is the handle of [canonicalize(B)] in both maps, so
    [GetAbsolutePath(h)] is [canonicalize(B)]; every handle of the registry
    was in it before; when the two canonical paths differ, [A] is no longer
    registered and [h] no longer resolves to [A]; and when [h] was the only
    handle [handle2path] bound to [A], no handle resolves to [A] any more. *)
Theorem Move_rekeys host pathFrom pathTo s h s' :
  path2handle s !! canonicalize host pathFrom = Some h ->
  Move host pathFrom pathTo s = Some s' ->
  path2handle s' !! canonicalize host pathTo = Some h /\
  GetAbsolutePath h s' = Some (canonicalize host pathTo) /\
  (forall p' h', path2handle s' !! p' = Some h' ->
     exists p0, path2handle s !! p0 = Some h') /\
  (canonicalize host pathFrom <> canonicalize host pathTo ->
     path2handle s' !! canonicalize host pathFrom = None /\
     GetAbsolutePath h s' <> Some (canonicalize host pathFrom) /\
     ((forall h', handle2path s !! h' = Some (canonicalize host pathFrom) ->
         h' = h) ->
      forall h', GetAbsolutePath h' s' <> Some (canonicalize host pathFrom))).
Proof.
  intros Hh HM. destruct (Move_handles host _ _ s h s' Hh HM) as [E1 E2].
  unfold GetAbsolutePath. rewrite E1, E2, !lookup_insert_eq.
  split; [done|]. split; [done|]. split.
  - intros p' h'. rewrite lookup_insert. case_decide.
    + intros [= <-]. eauto.
    + rewrite lookup_delete. case_decide; [done|]. eauto.
  - intros Hne. split; [|split].
    + rewrite lookup_insert_ne by done. apply lookup_delete_eq.
    + congruence.
    + intros Honly h'. rewrite lookup_insert. case_decide.
      * congruence.
      * rewrite lookup_delete. case_decide; [done|].
        intros Hh'. apply Honly in Hh'. congruence.
Qed.

Lemma Move_rekeys_witness :
  path2handle table_a_overlay !! canonicalize host_links "/d/a" = Some handle_10 /\
  exists s',
    Move host_links "/d/a" "/d/x" table_a_overlay = Some s' /\
    path2handle s' !! canonicalize host_links "/d/x" = Some handle_10 /\
    GetAbsolutePath handle_10 s' = Some (canonicalize host_links "/d/x").
Proof.
  split; [reflexivity|].
  destruct (Move host_links "/d/a" "/d/x" table_a_overlay) as [s'|] eqn:E;
    [|vm_compute in E; discriminate].
  exists s'. split; [reflexivity|].
  destruct (Move_rekeys host_links "/d/a" "/d/x" table_a_overlay handle_10 s')
    as (H1 & H2 & _); [reflexivity | exact E | ].
  split; [exact H1 | exact H2].
Defined.

(** C5 as stated fails for a handle left behind by an earlier rename.
    [/d/a] was registered under [handle_10]; then [/d/c] was renamed over it,
    which re-keyed [handle_12] to [/d/a] and left [handle_10] bound to [/d/a]
    in [handle2path]. After [Move("/d/a", "/d/b")] the handle of [/d/a],
    [handle_12], resolves to [/d/b], and [handle_10], mapped to [/d/a] before
    the move, still resolves to [/d/a]. *)
Lemma Move_leaves_stale_handle :
  reached table_renamed_over /\
  path2handle table_renamed_over !! "/d/a"%string = Some handle_12 /\
  GetAbsolutePath handle_10 table_renamed_over = Some "/d/a"%string /\
  exists s',
    Move (host_one "/d/b" 12) "/d/a" "/d/b" table_renamed_over = Some s' /\
    GetAbsolutePath handle_12 s' = Some "/d/b"%string /\
    GetAbsolutePath handle_10 s' = Some "/d/a"%string.
Proof.
  split; [reached_by_run|].
  split; [reflexivity|]. split; [reflexivity|].
  eexists. split; [vm_compute; reflexivity|]. split; reflexivity.
Qed.

(** ** The registry: when the two maps are inverses *)

Lemma make_file_handle_nonzero fstat : make_file_handle fstat <> 0.
Proof.
  unfold make_file_handle.
  destruct (Z.eqb_spec (Z.lxor (rotl (wrap64 (st_dev fstat)) 32)
                          (wrap64 (st_ino fstat))) 0) as [->|]; [|done].
  by vm_compute.
Qed.

Section maps.
Context (m1 : gmap string Z) (m2 : gmap Z string).
Hypothesis Hinv : inv_maps m1 m2.

Lemma inv_maps_delete p h :
  m1 !! p = Some h ->
  inv_maps (delete p m1) (delete h m2).
Proof.
  intros Hp q k. rewrite !lookup_delete.
  pose proof (Hinv p h) as Hph. pose proof (Hinv q k) as Hqk.
  pose proof (Hinv p k) as Hpk. pose proof (Hinv q h) as Hqh.
  repeat case_decide; subst; intuition congruence.
Qed.

Lemma inv_maps_insert p h :
  m1 !! p = None -> m2 !! h = None ->
  inv_maps (<[p := h]> m1) (<[h := p]> m2).
Proof.
  intros Hp Hh q k. rewrite !lookup_insert.
  pose proof (Hinv q k) as Hqk.
  pose proof (Hinv p k) as Hpk. pose proof (Hinv q h) as Hqh.
  repeat case_decide; subst; intuition congruence.
Qed.
End maps.

Lemma inverse_maps s : inverse s <-> inv_maps (path2handle s) (handle2path s).
Proof. done. Qed.

Lemma inverse_same s s' :
  path2handle s' = path2handle s -> handle2path s' = handle2path s ->
  inverse s -> inverse s'.
Proof. rewrite !inverse_maps. by intros -> ->. Qed.

Lemma Write_handles host s :
  path2handle (Write host s).1 = path2handle s /\
  handle2path (Write host s).1 = handle2path s.
Proof. unfold Write. by destruct (foldl _ _ _). Qed.

Lemma Run_step_handles host s :
  path2handle (Run_step host s).1 = path2handle s /\
  handle2path (Run_step host s).1 = handle2path s.
Proof.
  unfold Run_step. destruct (negb _); [apply Write_handles | done].
Qed.

Lemma GetFileHandle_inverse host p s :
  inverse s -> collision_free host (CallGetFileHandle p) s = true ->
  inverse (GetFileHandle host p s).2.
Proof.
  unfold GetFileHandle; simpl. intros Hi.
  destruct (path2handle s !! canonicalize host p) eqn:E; [done|].
  destruct (host_stat host (canonicalize host p)); [|done].
  intros Hc%bool_decide_eq_true. by apply inv_maps_insert.
Qed.

Lemma Move_inverse host a b s s' :
  inverse s -> collision_free host (CallMove a b) s = true ->
  Move host a b s = Some s' -> inverse s'.
Proof.
  simpl. intros Hi Hc HM.
  destruct (path2handle s !! canonicalize host a) as [h|] eqn:E.
  - destruct (Move_handles host a b s h s' E HM) as [E1 E2].
    apply inverse_maps. rewrite E1, E2. apply inv_maps_insert.
    + by apply inv_maps_delete.
    + apply orb_true_iff in Hc as [Hc%bool_decide_eq_true|Hc%bool_decide_eq_true].
      * rewrite Hc. apply lookup_delete_eq.
      * rewrite lookup_delete. by case_decide.
    + apply lookup_delete_eq.
  - unfold Move in HM. rewrite E in HM. by injection HM as <-.
Qed.

Lemma Remove_inverse host p s : inverse s -> inverse (Remove host p s).
Proof.
  intros Hi. destruct (path2handle s !! canonicalize host p) as [h|] eqn:E.
  - destruct (Remove_handles host p s h E) as [E1 E2].
    unfold inverse. rewrite E1, E2. by apply inv_maps_delete.
  - unfold Remove. by rewrite E.
Qed.

Lemma step_inverse host c s s' :
  inverse s -> collision_free host c s = true ->
  step host c s = Some s' -> inverse s'.
Proof.
  intros Hi Hc. destruct c; simpl; try (intros [= <-]).
  - destruct (Stat_handles host path buf s) as (E1 & E2 & _).
    by apply (inverse_same s).
  - by apply GetFileHandle_inverse.
  - intros HM. by apply (Move_inverse host pathFrom pathTo s).
  - by apply Remove_inverse.
  - intros [E1 E2]%SetFileAttrs_handles. by apply (inverse_same s).
  - destruct (GetFileAttrs_handles host path s) as (E1 & E2 & _).
    by apply (inverse_same s).
  - destruct (Run_step_handles host s) as [E1 E2].
    by apply (inverse_same s).
Qed.

Lemma run_inverse cs : forall s s',
  inverse s -> collision_free_run cs s -> run cs s = Some s' -> inverse s'.
Proof.
  induction cs as [|[host c] cs IH]; simpl; intros s s' Hi Hc Hr.
  - by injection Hr as <-.
  - destruct Hc as [Hc Hcs]. destruct (step host c s) as [s1|] eqn:E; [|done].
    simpl in Hr. apply (IH s1); [|done..]. by apply (step_inverse host c s).
Qed.

Lemma inverse_init : inverse FileTable_init.
Proof. intros p h. simpl. by rewrite !lookup_empty. Qed.

(** C1, as amended. In every table reached from the initial one by calls
    that do not collide ([GetFileHandle] derives for an unregistered path no
    handle that [handle2path] already binds, [Move] targets no path
    registered under another handle), the two maps of the registry are exact
    inverses; a [GetFileHandle(p)] that then returns a non-zero handle [h]
    leaves [GetAbsolutePath(h)] equal to [canonicalize(p)]; and a
    [GetFileHandle] that does not collide leaves every binding of
    [handle2path] as it is. *)
Theorem registry_inverse cs s :
  collision_free_run cs FileTable_init ->
  run cs FileTable_init = Some s ->
  inverse s /\
  (forall host p h s',
     GetFileHandle host p s = (h, s') -> h <> 0 ->
     GetAbsolutePath h s' = Some (canonicalize host p)) /\
  (forall host p h q,
     collision_free host (CallGetFileHandle p) s = true ->
     handle2path s !! h = Some q ->
     handle2path (GetFileHandle host p s).2 !! h = Some q).
Proof.
  intros Hc Hr.
  assert (Hi : inverse s) by exact (run_inverse cs _ s inverse_init Hc Hr).
  split; [done|]. split.
  - intros host p h s'. unfold GetFileHandle, GetAbsolutePath.
    destruct (path2handle s !! canonicalize host p) as [h0|] eqn:E.
    + intros [= <- <-] _. by apply Hi.
    + destruct (host_stat host (canonicalize host p)).
      * intros [= <- <-] _. simpl. apply lookup_insert_eq.
      * by intros [= <- <-].
  - intros host p h q. unfold GetFileHandle; simpl.
    destruct (path2handle s !! canonicalize host p); [done|].
    destruct (host_stat host (canonicalize host p)); [|done].
    intros Hf%bool_decide_eq_true Hq. simpl.
    rewrite lookup_insert_ne; [done|]. congruence.
Qed.

Lemma registry_inverse_witness :
  collision_free_run calls_plain FileTable_init /\
  run calls_plain FileTable_init = Some (run_from_init calls_plain) /\
  inverse (run_from_init calls_plain) /\
  GetAbsolutePath (GetFileHandle host_links "/d/a" (run_from_init calls_plain)).1
    (GetFileHandle host_links "/d/a" (run_from_init calls_plain)).2
  = Some (canonicalize host_links "/d/a").
Proof.
  assert (Hc : collision_free_run calls_plain FileTable_init).
  { vm_compute. tauto. }
  assert (Hr : run calls_plain FileTable_init = Some (run_from_init calls_plain)).
  { vm_compute. reflexivity. }
  destruct (registry_inverse calls_plain _ Hc Hr) as (Hi & Hg & _).
  split; [exact Hc|]. split; [exact Hr|]. split; [exact Hi|].
  apply (Hg host_links "/d/a").
  - apply surjective_pairing.
  - vm_compute. discriminate.
Defined.

(** C1 as stated fails for two hard links. [/d/a] and [/d/b] name one inode,
    so [GetFileHandle] derives one handle for both and the second call
    re-binds it: the handle of [/d/a] resolves to [/d/b], and the two maps
    are not inverses. *)
Lemma hard_links_share_handle :
  run [(host_links, CallGetFileHandle "/d/a");
       (host_links, CallGetFileHandle "/d/b")] FileTable_init
    = Some table_hard_links /\
  canonicalize host_links "/d/a" = "/d/a"%string /\
  (GetFileHandle host_links "/d/a" table_hard_links).1 = handle_10 /\
  GetAbsolutePath handle_10
    (GetFileHandle host_links "/d/a" table_hard_links).2 = Some "/d/b"%string /\
  ~ inverse table_hard_links.
Proof.
  split; [vm_compute; reflexivity|]. split; [reflexivity|].
  split; [reflexivity|]. split; [reflexivity|].
  intros Hi. specialize (Hi "/d/a"%string handle_10).
  assert (H : handle2path table_hard_links !! handle_10 = Some "/d/a"%string)
    by (apply Hi; reflexivity).
  vm_compute in H. discriminate.
Qed.

(** ** Stat *)

Lemma Stat_unfold host p buf s :
  Stat host p buf s =
  (match host_stat host (canonicalize host p) with Some _ => 0 | None => -1 end,
   let base := default buf (host_stat host (canonicalize host p)) in
   match (GetFileAttrs host (canonicalize host p) s).1 with
   | Some a => overlay a base
   | None => base
   end,
   (GetFileAttrs host (canonicalize host p) s).2).
Proof.
  unfold Stat.
  destruct (host_stat host _), (GetFileAttrs host _ s) as [[a|] s']; reflexivity.
Qed.

(** C3, as amended. [Stat] returns 0 exactly when the host [stat] of the
    canonical path succeeds and -1 exactly when it fails. Whatever that
    result, it looks the path up in the store of its directory, and when a
    record is found it overlays it on the buffer: on what the host [stat]
    stored when it succeeded, on what the buffer of the caller held when it
    failed. *)
Theorem Stat_result host p buf s :
  ((Stat host p buf s).1.1 = 0 <-> is_Some (host_stat host (canonicalize host p))) /\
  ((Stat host p buf s).1.1 = -1 <-> host_stat host (canonicalize host p) = None) /\
  (Stat host p buf s).2 = (GetFileAttrs host (canonicalize host p) s).2 /\
  (Stat host p buf s).1.2 =
    match (GetFileAttrs host (canonicalize host p) s).1 with
    | Some a => overlay a (default buf (host_stat host (canonicalize host p)))
    | None => default buf (host_stat host (canonicalize host p))
    end.
Proof.
  rewrite Stat_unfold. simpl.
  destruct (host_stat host (canonicalize host p)) eqn:E; simpl.
  - repeat split; first [done | by eexists].
  - repeat split; first [done | by intros [? ?]].
Qed.

(** C3 as stated fails: [/d/gone] has an overlay record and no file on the
    host. [Stat] fails, and the buffer it hands back is the buffer of the
    caller with the record overlaid. *)
Lemma Stat_overlays_on_failure :
  reached table_gone_overlay /\
  host_stat host_links (canonicalize host_links "/d/gone") = None /\
  (Stat host_links "/d/gone" stat_zero table_gone_overlay).1
    = (-1, overlay (attrs_of 420 7 8) stat_zero) /\
  st_uid (Stat host_links "/d/gone" stat_zero table_gone_overlay).1.2 = 7 /\
  st_uid stat_zero = 0.
Proof.
  split; [reached_by_run|].
  repeat split; vm_compute; reflexivity. Qed.





(** C2 fails on the code. [/d/a] is a regular file whose [stat] succeeds, and
    its overlay record has the mode of a directory with permissions 0755
    (octal 040755). [Stat] masks the mode of the host with [S_IFMT] and does
    not mask the mode of the record, so the file-type bits it returns, octal
    0140000, are those of the host (0100000) or-ed with those of the record
    (040000): they do not come from the host, nor are they those of the
    record. *)
Theorem Stat_mixes_file_types :
  reached table_a_dir_mode /\
  host_stat host_links (canonicalize host_links "/d/a")
    = Some (stat_of 1 10 mode_reg_644) /\
  (GetFileAttrs host_links (canonicalize host_links "/d/a") table_a_dir_mode).1
    = Some (attrs_of mode_dir_755 7 8) /\
  Valid mode_dir_755 = true /\
  (Stat host_links "/d/a" stat_zero table_a_dir_mode).1.1 = 0 /\
  Z.land (st_mode (stat_of 1 10 mode_reg_644)) S_IFMT = 32768 /\
  Z.land mode_dir_755 S_IFMT = 16384 /\
  Z.land (st_mode (Stat host_links "/d/a" stat_zero table_a_dir_mode).1.2) S_IFMT
    = 49152.
Proof.
  split; [reached_by_run|].
  repeat split; vm_compute; reflexivity.
Qed.

(** ** Flushing one store *)

Lemma foldl_write_entry_text l : forall txt m,
  (foldl write_entry (txt, m) l).1 = txt ++ concat (render <$> l).
Proof.
  induction l as [|[n v] l IH]; intros txt m; simpl.
  - by rewrite app_nil_r.
  - unfold write_entry at 2, render at 1. destruct v as [a|]; simpl.
    + by rewrite IH, <- app_assoc.
    + by rewrite IH.
Qed.

Lemma foldl_write_entry_lookup l n : forall txt m,
  (foldl write_entry (txt, m) l).2 !! n =
  if decide ((n, None) ∈ l) then None else m !! n.
Proof.
  induction l as [|[k v] l IH]; intros txt m; cbn [foldl].
  - rewrite decide_False; [done | apply not_elem_of_nil].
  - unfold write_entry at 2. destruct v as [a|]; cbn [fst snd]; rewrite IH.
    + destruct (decide ((n, None) ∈ l)) as [H1|H1],
        (decide ((n, None) ∈ (k, Some a) :: l)) as [H2|H2]; try done.
      * contradict H2. by apply elem_of_cons; right.
      * apply elem_of_cons in H2 as [[=]|]; done.
    + destruct (decide ((n, None) ∈ l)) as [H1|H1],
        (decide ((n, None) ∈ (k, None) :: l)) as [H2|H2]; try done.
      * contradict H2. by apply elem_of_cons; right.
      * apply elem_of_cons in H2 as [[= ->]|]; [|done]. apply lookup_delete_eq.
      * rewrite lookup_delete_ne; [done|]. intros ->.
        contradict H2. apply elem_of_cons. by left.
Qed.

Lemma render_records l :
  concat (render <$> l)
  = file_text (omap (fun e => a ← e.2; Some (e.1, a)) l).
Proof.
  induction l as [|[n v] l IH]; [done|].
  rewrite fmap_cons. cbn [concat]. rewrite IH. by destruct v.
Qed.

Lemma elem_of_in_order m n v : (n, v) ∈ in_order m <-> m !! n = Some v.
Proof.
  unfold in_order. rewrite merge_sort_Permutation. apply elem_of_map_to_list.
Qed.

(** What [FileAttrDB::Write] does when it opens the file: the text is made of
    the records of the non-null entries, in the order of the keys, and the
    null entries are gone from the store. *)
Lemma elem_of_records m n a : (n, a) ∈ records m <-> m !! n = Some (Some a).
Proof.
  unfold records. rewrite list_elem_of_omap. split.
  - intros ([k [b|]] & Hin & Heq); simpl in Heq; [|done].
    injection Heq as -> ->. by apply elem_of_in_order.
  - intros H. exists (n, Some a). split; [|done]. by apply elem_of_in_order.
Qed.

Lemma FileAttrDB_Write_opened host db :
  (0 < base.size (attrs db))%nat -> fopen_w host (db_path db) = true ->
  exists m,
    FileAttrDB_Write host db
      = (mkFileAttrDB (db_path db) m, Some (file_text (records (attrs db)))) /\
    forall n, m !! n = if decide (attrs db !! n = Some None) then None
                       else attrs db !! n.
Proof.
  intros Hs Ho. unfold FileAttrDB_Write.
  apply Nat.ltb_lt in Hs. rewrite Hs, Ho.
  pose proof (foldl_write_entry_text (in_order (attrs db)) [] (attrs db)) as Ht.
  pose proof (fun n => foldl_write_entry_lookup (in_order (attrs db)) n []
                         (attrs db)) as Hl.
  destruct (foldl write_entry _ _) as [txt m]. simpl in *. subst txt.
  exists m. split; [by rewrite render_records|]. intros n. rewrite Hl.
  destruct (decide ((n, None) ∈ in_order (attrs db))) as [H1|H1],
    (decide (attrs db !! n = Some None)) as [H2|H2]; try done.
  - by apply elem_of_in_order in H1.
  - by apply elem_of_in_order in H2.
Qed.

Lemma FileAttrDB_Write_closed host db :
  base.size (attrs db) = 0%nat \/ fopen_w host (db_path db) = false ->
  FileAttrDB_Write host db = (db, None).
Proof.
  unfold FileAttrDB_Write. intros [->| ->]; [done|].
  by destruct (0 <? _)%nat.
Qed.

(** C9, as amended. Let the store of the directory of [path] hold no record
    under [filename(path)]. [GetFileAttrs] returns null and leaves a null
    entry under that name in the store: where the store had no entry at all
    under the name, it now holds one entry more; where it had a null entry
    already, left by an earlier lookup, it is as it was. A flush of that
    store that opens the file writes the records of the non-null entries
    only, and the entries it erases from the store are exactly the null ones,
    the one under that name among them. *)
Theorem GetFileAttrs_inserts_null host path s k db s1 :
  GetDB host path s = (k, db, s1) ->
  (forall a, attrs db !! filename path <> Some (Some a)) ->
  exists db',
    attrs db' = <[filename path := None]> (attrs db) /\
    GetFileAttrs host path s = (None, set_path2db s1 k db') /\
    path2db (GetFileAttrs host path s).2 !! k = Some db' /\
    (attrs db !! filename path = None ->
     base.size (attrs db') = S (base.size (attrs db))) /\
    (attrs db !! filename path = Some None -> db' = db) /\
    forall host', fopen_w host' (db_path db') = true ->
      exists m,
        FileAttrDB_Write host' db'
          = (mkFileAttrDB (db_path db') m, Some (file_text (records (attrs db')))) /\
        (forall n a, (n, a) ∈ records (attrs db') <-> attrs db !! n = Some (Some a)) /\
        m !! filename path = None /\
        (forall n, is_Some (attrs db' !! n) ->
           m !! n = None <-> attrs db' !! n = Some None).
Proof.
  intros HG Hn.
  set (db' := mkFileAttrDB (db_path db) (<[filename path := None]> (attrs db))).
  assert (Hid : attrs db !! filename path = Some None -> db' = db).
  { intros H. unfold db'. rewrite (insert_id _ _ _ H). by destruct db. }
  exists db'. split; [done|].
  assert (E : GetFileAttrs host path s = (None, set_path2db s1 k db')).
  { unfold GetFileAttrs, FileAttrDB_GetFileAttrs. rewrite HG.
    destruct (attrs db !! filename path) as [[a|]|] eqn:Ea.
    - by destruct (Hn a).
    - by rewrite Hid.
    - done. }
  split; [exact E|]. split; [rewrite E; simpl; apply lookup_insert_eq|].
  split; [intros H; by apply map_size_insert_None|].
  split; [exact Hid|].
  intros host' Ho.
  destruct (FileAttrDB_Write_opened host' db') as (m & HW & Hm);
    [|exact Ho|].
  { unfold db'. cbn [attrs].
    destruct (decide (base.size (<[filename path := None]> (attrs db)) = 0%nat))
      as [Hz|Hz]; [|lia].
    apply map_size_empty_iff in Hz.
    by apply insert_non_empty in Hz. }
  exists m. split; [exact HW|]. simpl in *. split; [|split].
  - intros n a. rewrite elem_of_records, lookup_insert.
    case_decide; [subst; split; [done | intros H; by destruct (Hn a)] | done].
  - rewrite Hm, lookup_insert_eq. by rewrite decide_True.
  - intros n [v Hv]. rewrite Hm. case_decide as H; [done|].
    rewrite Hv. split; [done|]. intros [= ->]. by rewrite Hv in H.
Qed.

Lemma GetFileAttrs_inserts_null_witness :
  exists db s1 db',
    GetDB host_links "/d/y" table_a_overlay = ("/d"%string, db, s1) /\
    attrs db !! filename "/d/y" = None /\
    GetFileAttrs host_links "/d/y" table_a_overlay
      = (None, set_path2db s1 "/d" db') /\
    base.size (attrs db') = S (base.size (attrs db)).
Proof.
  destruct (GetDB host_links "/d/y" table_a_overlay) as [[k db] s1] eqn:E.
  assert (Hk : k = "/d"%string) by (vm_compute in E; congruence). subst k.
  assert (Hn : attrs db !! filename "/d/y" = None).
  { vm_compute in E. injection E as <- <-. reflexivity. }
  assert (Hr : forall a, attrs db !! filename "/d/y" <> Some (Some a))
    by (intros a; rewrite Hn; discriminate).
  destruct (GetFileAttrs_inserts_null host_links "/d/y" table_a_overlay
              "/d" db s1 E Hr) as (db' & _ & HG & _ & Hs & _).
  exists db, s1, db'. repeat split; [assumption.. | by apply Hs].
Defined.

(** C9 as stated fails for a name that was looked up before. After a first
    [GetFileAttrs] of [/d/y] the store of [/d] holds a record for [a] and a
    null entry for [y]: [y] has no recorded override. A second
    [GetFileAttrs] of [/d/y] returns null and inserts nothing: the table is
    as it was, and the store still holds two entries. *)
Lemma second_lookup_inserts_nothing :
  reached table_y_looked_up /\
  entry table_y_looked_up "/d" "y" = Some None /\
  (base.size <$> (attrs <$> path2db table_y_looked_up !! "/d"%string)) = Some 2%nat /\
  GetFileAttrs host_links "/d/y" table_y_looked_up = (None, table_y_looked_up) /\
  (base.size <$>
     (attrs <$> path2db (GetFileAttrs host_links "/d/y" table_y_looked_up).2
                  !! "/d"%string)) = Some 2%nat.
Proof.
  split; [reached_by_run|].
  repeat split; vm_compute; reflexivity.
Qed.

(** ** Flushing the dirty set *)

Lemma written_agree host dbs dbs' (ks : list string) :
  (forall k, k ∈ ks -> dbs' !! k = dbs !! k) ->
  omap (written host dbs') ks = omap (written host dbs) ks.
Proof.
  induction ks as [|k ks IH]; intros H; [done|].
  cbn [omap list_omap].
  assert (written host dbs' k = written host dbs k) as ->.
  { unfold written. rewrite (H k); [done|]. apply elem_of_cons. by left. }
  rewrite IH; [done|]. intros k' Hk'. apply H, elem_of_cons. by right.
Qed.

Lemma foldl_write_db host (ks : list string) : NoDup ks -> forall dbs out,
  (foldl (write_db host) (dbs, out) ks).2 = out ++ omap (written host dbs) ks /\
  forall k, (foldl (write_db host) (dbs, out) ks).1 !! k =
    if decide (k ∈ ks) then (fun db => (FileAttrDB_Write host db).1) <$> dbs !! k
    else dbs !! k.
Proof.
  induction 1 as [|k0 ks Hk0 Hnd IH]; intros dbs out; cbn [foldl].
  - split; [by rewrite app_nil_r|]. intros k.
    rewrite decide_False; [done | apply not_elem_of_nil].
  - assert (Hag : forall db', omap (written host (<[k0 := db']> dbs)) ks
                    = omap (written host dbs) ks).
    { intros db'. apply written_agree. intros k Hk.
      apply lookup_insert_ne. by intros ->. }
    assert (Hdec : forall k (X Y : option FileAttrDB), k <> k0 ->
              (if decide (k ∈ k0 :: ks) then X else Y)
              = (if decide (k ∈ ks) then X else Y)).
    { intros k X Y Hne. destruct (decide (k ∈ ks)) as [H1|H1].
      - rewrite decide_True; [done | by right].
      - rewrite decide_False; [done|]. intros [|]%elem_of_cons; done. }
    cbn [omap list_omap].
    destruct (write_db host (dbs, out) k0) as [dbs1 out1] eqn:Ewd.
    unfold write_db in Ewd. cbn [fst snd] in Ewd. unfold written at 1.
    destruct (IH dbs1 out1) as [IH1 IH2]. rewrite IH1.
    destruct (dbs !! k0) as [db|] eqn:E; cbn [mbind option_bind].
    + destruct (FileAttrDB_Write host db) as [db' o] eqn:EW.
      injection Ewd as <- <-. rewrite Hag. split.
      * cbn [snd]. destruct o; cbn [mbind option_bind]; [|done].
        by rewrite <- app_assoc.
      * intros k. rewrite IH2. destruct (decide (k = k0)) as [->|Hne].
        -- rewrite decide_False by done. rewrite decide_True by (by left).
           rewrite lookup_insert_eq, E. simpl. by rewrite EW.
        -- rewrite lookup_insert_ne by done. by rewrite Hdec.
    + injection Ewd as <- <-. split; [done|].
      intros k. rewrite IH2. destruct (decide (k = k0)) as [->|Hne].
      * rewrite decide_False by done. rewrite decide_True by (by left).
        by rewrite E.
      * by rewrite Hdec.
Qed.

Lemma Write_spec host s :
  (Write host s).2 = omap (written host (path2db s)) (elements (dirty s)) /\
  dirty (Write host s).1 = ∅ /\
  forall k, path2db (Write host s).1 !! k =
    if decide (k ∈ dirty s)
    then (fun db => (FileAttrDB_Write host db).1) <$> path2db s !! k
    else path2db s !! k.
Proof.
  unfold Write.
  destruct (foldl_write_db host (elements (dirty s)) (NoDup_elements _)
              (path2db s) []) as [H1 H2].
  destruct (foldl _ _ _) as [dbs out]. simpl in *.
  split; [done|]. split; [done|]. intros k. rewrite H2.
  destruct (decide (k ∈ dirty s)) as [H|H].
  - rewrite decide_True; [done | by apply elem_of_elements].
  - rewrite decide_False; [done|]. by rewrite elem_of_elements.
Qed.

(** C4, as amended. [FileTable::Write] flushes every store of the dirty set
    and then empties the set, whatever became of the flushes: the files
    written are those of the dirty stores whose flush opened its file, and a
    dirty store whose file does not open is left as it was, writes nothing
    and is no longer dirty, so that the next turn of the maintenance loop
    does nothing for it. *)
Theorem Write_clears_dirty host s :
  dirty (Write host s).1 = ∅ /\
  (Write host s).2 = omap (written host (path2db s)) (elements (dirty s)) /\
  (forall host', Run_step host' (Write host s).1 = ((Write host s).1, [])) /\
  (forall k db,
     k ∈ dirty s -> path2db s !! k = Some db ->
     fopen_w host (db_path db) = false ->
     written host (path2db s) k = None /\
     path2db (Write host s).1 !! k = Some db /\
     k ∉ dirty (Write host s).1).
Proof.
  destruct (Write_spec host s) as (H1 & H2 & H3).
  split; [done|]. split; [done|]. split.
  - intros host'. unfold Run_step. by rewrite H2.
  - intros k db Hk Hdb Hf. rewrite H2, H3, decide_True by done.
    unfold written. rewrite Hdb. simpl.
    rewrite (FileAttrDB_Write_closed host db) by by right.
    repeat split. set_solver.
Qed.

(** C4 as stated fails: the store of [/d] is dirty and holds a record, and
    its sidecar file does not open for writing. The flush writes no file and
    empties the dirty set; the next turn of the loop, when the file would
    open, writes nothing either. *)
Lemma failed_write_not_retried :
  reached table_a_dirty /\
  dirty table_a_dirty = {["/d"%string]} /\
  (Write host_readonly table_a_dirty).2 = [] /\
  dirty (Write host_readonly table_a_dirty).1 = ∅ /\
  (Run_step host_links (Write host_readonly table_a_dirty).1).2 = [].
Proof.
  split; [reached_by_run|].
  repeat split; vm_compute; reflexivity. Qed.

(** ** Sidecar files without a record *)

Lemma FileAttrDB_Write_empty host db :
  base.size (attrs db) = 0%nat -> FileAttrDB_Write host db = (db, None).
Proof. intros H. apply FileAttrDB_Write_closed. by left. Qed.

(** C8 fails on the code. After a handle and a record for [/d/a], a lookup of
    [/d/y] and the removal of [/d/a], the store of [/d] is dirty and holds a
    single, null entry. The next turn of the maintenance loop opens the
    sidecar file of [/d], which did not exist, and writes nothing into it. *)
Theorem Write_creates_empty_sidecar :
  run calls_null_only FileTable_init = Some table_null_only /\
  (exists db,
     path2db table_null_only !! "/d"%string = Some db /\
     attrs db = {["y"%string := None]}) /\
  sidecar host_links "/d/.nfsd_fattrs" = ∅ /\
  (Run_step host_links table_null_only).2 = [("/d/.nfsd_fattrs"%string, [])].
Proof.
  split; [vm_compute; reflexivity|]. split.
  - eexists. split; [vm_compute; reflexivity|]. vm_compute. reflexivity.
  - split; vm_compute; reflexivity.
Qed.

(** ** Numbers in the sidecar file *)

Lemma small_digit (P : Z -> Prop) :
  P 0 -> P 1 -> P 2 -> P 3 -> P 4 -> P 5 -> P 6 -> P 7 -> P 8 -> P 9 ->
  forall d, 0 <= d < 10 -> P d.
Proof.
  intros ? ? ? ? ? ? ? ? ? ? d Hd.
  assert (d = 0 \/ d = 1 \/ d = 2 \/ d = 3 \/ d = 4 \/ d = 5 \/ d = 6 \/
          d = 7 \/ d = 8 \/ d = 9) as H' by lia.
  repeat (destruct H' as [->|H']; [assumption|]). by subst.
Qed.

Lemma digit_val_char base d :
  0 <= d < base -> base <= 10 -> digit_val base (digit_char d) = Some d.
Proof.
  intros Hd Hb. assert (Hd' : 0 <= d < 10) by lia. revert d Hd' Hd.
  apply (small_digit (fun d => 0 <= d < base -> _)); intros Hd;
    unfold digit_val;
    match goal with
    | |- context [Z.of_nat (nat_of_ascii (digit_char ?k)) - 48] =>
        change (Z.of_nat (nat_of_ascii (digit_char k)) - 48) with k;
        destruct (Z.ltb_spec k base); [done | lia]
    end.
Qed.

Lemma digit_char_plain d :
  0 <= d < 10 ->
  isspace (digit_char d) = false /\
  Ascii.eqb (digit_char d) "-" = false /\
  Ascii.eqb (digit_char d) "+" = false.
Proof. revert d. by apply small_digit. Qed.

Section digits.
Variable base : Z.
Hypothesis base_range : 2 <= base <= 10.

Lemma print_digits_scan fuel : forall n acc rest,
  0 <= n < base ^ Z.of_nat fuel ->
  exists k, 0 <= k /\
    scan_digits base (print_digits base fuel n ++ rest) acc
    = scan_digits base rest (acc * base ^ k + n).
Proof.
  induction fuel as [|fuel IH]; intros n acc rest Hn.
  - simpl in Hn. exists 0. split; [done|]. simpl.
    replace n with 0 by lia. f_equal. lia.
  - rewrite Nat2Z.inj_succ, Z.pow_succ_r in Hn by lia.
    assert (Hm : 0 <= n mod base < base) by (apply Z.mod_pos_bound; lia).
    assert (Hq : 0 <= n / base < base ^ Z.of_nat fuel).
    { split; [apply Z.div_pos; lia | apply Z.div_lt_upper_bound; lia]. }
    assert (Hdm : n = base * (n / base) + n mod base)
      by (apply Z.div_mod; lia).
    cbn [print_digits]. destruct (Z.eqb_spec (n / base) 0) as [Hz|Hz].
    + exists 1. split; [lia|]. cbn [app scan_digits].
      rewrite digit_val_char by lia. f_equal. lia.
    + destruct (IH (n / base) acc (digit_char (n mod base) :: rest) Hq)
        as (k & Hk & E).
      exists (k + 1). split; [lia|].
      rewrite <- app_assoc. cbn [app]. rewrite E. cbn [scan_digits].
      rewrite digit_val_char by lia. f_equal.
      rewrite Z.pow_add_r, Z.pow_1_r by lia. lia.
Qed.

Lemma print_digits_head fuel n :
  0 <= n ->
  exists d r, 0 <= d < base /\ print_digits base (S fuel) n = digit_char d :: r.
Proof.
  revert n. induction fuel as [|fuel IH]; intros n Hn.
  - assert (Hm : 0 <= n mod base < base) by (apply Z.mod_pos_bound; lia).
    cbn [print_digits]. destruct (n / base =? 0); eauto.
  - assert (Hm : 0 <= n mod base < base) by (apply Z.mod_pos_bound; lia).
    change (print_digits base (S (S fuel)) n)
      with ((if n / base =? 0 then []
             else print_digits base (S fuel) (n / base))
              ++ [digit_char (n mod base)]).
    destruct (n / base =? 0); [eauto|].
    destruct (IH (n / base)) as (d & r & Hd & ->);
      [apply Z.div_pos; lia|]. eauto.
Qed.

Lemma print_unsigned_head n :
  0 <= n ->
  exists d r, 0 <= d < base /\ print_unsigned base n = digit_char d :: r.
Proof. apply print_digits_head. Qed.

Lemma scan_digits_print n c rest :
  0 <= n < 2 ^ 64 -> digit_val base c = None ->
  scan_digits base (print_unsigned base n ++ c :: rest) 0 = (n, c :: rest).
Proof.
  intros Hn Hc. unfold print_unsigned.
  assert (Hn' : 0 <= n < base ^ Z.of_nat 64).
  { split; [lia|]. eapply Z.lt_le_trans; [apply Hn|].
    apply Z.pow_le_mono_l. lia. }
  destruct (print_digits_scan 64 n 0 (c :: rest) Hn') as (k & Hk & ->).
  cbn [scan_digits]. by rewrite Hc.
Qed.

(** A number written by [print_unsigned], with or without a minus sign, and
    followed by something that is not a digit is read back by [scan_int]. *)
Lemma scan_int_print n c rest :
  0 <= n < 2 ^ 64 -> digit_val base c = None ->
  scan_int base (print_unsigned base n ++ c :: rest) = Conv n (c :: rest).
Proof.
  intros Hn Hc. pose proof (scan_digits_print n c rest Hn Hc) as S.
  destruct (print_unsigned_head n) as (d & r & Hd & E); [lia|].
  destruct (digit_char_plain d) as (W & M & P); [lia|].
  unfold scan_int. rewrite E in *. cbn [app skip_ws] in *. rewrite W, M, P.
  by rewrite digit_val_char, S by lia.
Qed.

Lemma scan_int_print_neg n c rest :
  0 <= n < 2 ^ 64 -> digit_val base c = None ->
  scan_int base ("-"%char :: print_unsigned base n ++ c :: rest)
  = Conv (- n) (c :: rest).
Proof.
  intros Hn Hc. pose proof (scan_digits_print n c rest Hn Hc) as S.
  destruct (print_unsigned_head n) as (d & r & Hd & E); [lia|].
  unfold scan_int. cbn [skip_ws].
  change (isspace "-") with false. cbv iota. rewrite E in *. cbn [app] in *.
  by rewrite Ascii.eqb_refl, digit_val_char, S by lia.
Qed.
End digits.

Lemma signed32_range x : - 2 ^ 31 <= signed32 x < 2 ^ 31.
Proof.
  unfold signed32, wrap32.
  pose proof (Z.mod_pos_bound x (2 ^ 32) ltac:(lia)).
  destruct (Z.ltb_spec (x mod 2 ^ 32) (2 ^ 31)); lia.
Qed.

Lemma scan_printf_o x rest :
  scan_int 8 (printf_o x ++ ":"%char :: rest) = Conv (wrap32 x) (":"%char :: rest).
Proof.
  unfold printf_o. apply scan_int_print; [lia| |done].
  unfold wrap32. pose proof (Z.mod_pos_bound x (2 ^ 32) ltac:(lia)). lia.
Qed.

Lemma scan_printf_d x rest :
  scan_int 10 (printf_d x ++ ":"%char :: rest)
  = Conv (signed32 x) (":"%char :: rest).
Proof.
  unfold printf_d. pose proof (signed32_range x) as H.
  destruct (Z.ltb_spec (signed32 x) 0).
  - cbn [app]. rewrite scan_int_print_neg; [|lia|lia|done].
    f_equal. lia.
  - apply scan_int_print; [lia|lia|done].
Qed.

Lemma wrap32_signed32 x : wrap32 (signed32 x) = wrap32 x.
Proof.
  unfold signed32. destruct (Z.ltb_spec (wrap32 x) (2 ^ 31)); unfold wrap32.
  - apply Z.mod_mod. lia.
  - rewrite Zminus_mod, Z.mod_mod, Z_mod_same_full, Z.sub_0_r, Z.mod_mod by lia.
    done.
Qed.

Lemma signed32_signed32 x : signed32 (signed32 x) = signed32 x.
Proof. unfold signed32 at 1 3. by rewrite wrap32_signed32. Qed.

(** ** One line of the sidecar file *)

Lemma wrap32_wrap32 x : wrap32 (wrap32 x) = wrap32 x.
Proof. unfold wrap32. apply Z.mod_mod. lia. Qed.

Lemma scannable_chars name :
  scannable name = true ->
  exists c cs,
    list_ascii_of_string name = c :: cs /\
    Forall (fun c => isspace c = false /\ Ascii.eqb c zero = false) (c :: cs).
Proof.
  unfold scannable. destruct (list_ascii_of_string name) as [|c cs]; [done|].
  intros H. exists c, cs. split; [done|].
  apply Forall_forall. intros x Hx%list_elem_of_In.
  rewrite forallb_forall in H. specialize (H x Hx).
  apply andb_true_iff in H as [H1 H2].
  by rewrite negb_true_iff in H1, H2.
Qed.

Lemma c_str_plain cs :
  Forall (fun c => isspace c = false /\ Ascii.eqb c zero = false) cs ->
  c_str cs = cs.
Proof.
  induction 1 as [|c cs [_ Hc] _ IH]; [done|].
  cbn [c_str]. by rewrite Hc, IH.
Qed.

Lemma take_word_plain cs c rest :
  Forall (fun c => isspace c = false /\ Ascii.eqb c zero = false) cs ->
  isspace c = true ->
  take_word (cs ++ c :: rest) = (cs, c :: rest).
Proof.
  intros H Hc. induction H as [|x cs [Hx _] _ IH]; cbn [app take_word].
  - by rewrite Hc.
  - by rewrite Hx, IH.
Qed.

Lemma FileAttrs_Write_app a name rest :
  FileAttrs_Write a name ++ rest
  = "0"%char :: printf_o (mode a)
      ++ ":"%char :: printf_d (uid a)
      ++ ":"%char :: printf_d (gid a)
      ++ ":"%char :: printf_d (reserved a)
      ++ ":"%char :: c_str (list_ascii_of_string name)
      ++ "010"%char :: rest.
Proof.
  unfold FileAttrs_Write. cbn [app].
  repeat (rewrite <- app_assoc; cbn [app]). done.
Qed.

Lemma length_list_ascii_of_string s :
  length (list_ascii_of_string s) = String.length s.
Proof. induction s as [|c s IH]; simpl; [done | by rewrite IH]. Qed.

Lemma strtoul_range_wrap32 x : strtoul_range (wrap32 x) = wrap32 x.
Proof.
  unfold strtoul_range, wrap32.
  pose proof (Z.mod_pos_bound x (2 ^ 32) ltac:(lia)).
  destruct (Z.ltb_spec (2 ^ 64 - 1) (Z.abs (x mod 2 ^ 32))); [lia | done].
Qed.

Lemma strtol_range_signed32 x : strtol_range (signed32 x) = signed32 x.
Proof. unfold strtol_range. pose proof (signed32_range x). lia. Qed.

(** [fscanf] on a line written by [FileAttrs::Write] converts all five
    fields and stops before the next line, when the name fits [cname]. *)
Lemma fscanf_written MAXNAMELEN a name rest :
  scannable name = true -> (String.length name < MAXNAMELEN)%nat ->
  fscanf_fattrs MAXNAMELEN (FileAttrs_Write a name ++ rest)
  = Some (Scanned 5 (Some (wrap32 (mode a))) (Some (wrap32 (uid a)))
            (Some (wrap32 (gid a))) (Some (signed32 (reserved a)))
            (Some (list_ascii_of_string name)) (skip_ws rest)).
Proof.
  intros (c & cs & E & Hcs)%scannable_chars Hlen.
  rewrite <- length_list_ascii_of_string, E in Hlen.
  apply Nat.ltb_lt in Hlen.
  rewrite FileAttrs_Write_app. unfold fscanf_fattrs.
  cbn [scan_lit]. rewrite Ascii.eqb_refl.
  rewrite scan_printf_o. cbn [scan_lit]. rewrite Ascii.eqb_refl.
  rewrite scan_printf_d. cbn [scan_lit]. rewrite Ascii.eqb_refl.
  rewrite scan_printf_d. cbn [scan_lit]. rewrite Ascii.eqb_refl.
  rewrite scan_printf_d. cbn [scan_lit]. rewrite Ascii.eqb_refl.
  rewrite strtoul_range_wrap32, !strtol_range_signed32.
  rewrite !wrap32_signed32, signed32_signed32.
  rewrite E, (c_str_plain _ Hcs). unfold scan_word.
  pose proof (Forall_inv Hcs) as [Hc _].
  cbn [app skip_ws]. rewrite Hc.
  change (c :: cs ++ "010"%char :: rest) with ((c :: cs) ++ "010"%char :: rest).
  rewrite (take_word_plain _ _ _ Hcs) by done.
  change (skip_ws ("010"%char :: rest)) with (skip_ws rest).
  by rewrite Hlen, wrap32_wrap32.
Qed.

Lemma FileAttrs_read_written MAXNAMELEN u name0 a name rest :
  scannable name = true -> (String.length name < MAXNAMELEN)%nat ->
  FileAttrs_read MAXNAMELEN u name0 (FileAttrs_Write a name ++ rest)
  = Some (reloaded u a, name, skip_ws rest).
Proof.
  intros Hn Hlen. unfold FileAttrs_read.
  rewrite (fscanf_written _ _ _ _ Hn Hlen).
  destruct (scannable_chars _ Hn) as (c & cs & E & Hcs).
  cbn. rewrite E, (c_str_plain _ Hcs), <- E.
  by rewrite string_of_list_ascii_of_string.
Qed.

(** At the end of the file [fscanf] returns [EOF], which the constructor
    takes for a success: the name is whatever [cname] holds. *)
Lemma FileAttrs_read_eof MAXNAMELEN u name0 :
  FileAttrs_read MAXNAMELEN u name0 []
  = Some (u_attrs u, string_of_list_ascii (c_str (u_cname u)), []).
Proof. unfold FileAttrs_read. cbn. by destruct (u_attrs u). Qed.

Lemma skip_ws_file_text l : skip_ws (file_text l) = file_text l.
Proof. by destruct l as [|[n a] l]. Qed.

Lemma file_text_cons e l :
  file_text (e :: l) = FileAttrs_Write e.2 e.1 ++ file_text l.
Proof. done. Qed.

Lemma scannable_nonempty name :
  scannable name = true -> (String.length name =? 0)%nat = false.
Proof.
  intros (c & cs & E & _)%scannable_chars. destruct name; [done|done].
Qed.

(** ** The read loop on a file written by the flush *)

Lemma FileAttrDB_load_written MAXNAMELEN junk l : forall fuel i m,
  Forall (fun e => scannable e.1 = true /\
                   (String.length e.1 < MAXNAMELEN)%nat) l ->
  c_str (u_cname (junk (i + length l)%nat)) = [] ->
  (length l < fuel)%nat ->
  FileAttrDB_load MAXNAMELEN fuel junk i (file_text l) m
  = Done (load_records junk i l m).
Proof.
  induction l as [|[n a] l IH]; intros fuel i m Hl Hj Hf;
    (destruct fuel as [|fuel]; [simpl in Hf; lia|]).
  - cbn [FileAttrDB_load file_text fmap list_fmap concat].
    rewrite FileAttrs_read_eof. simpl in Hj. rewrite Nat.add_0_r in Hj.
    by rewrite Hj.
  - apply Forall_cons in Hl as [[Hn Hlen] Hl]. simpl in Hn, Hlen.
    cbn [FileAttrDB_load]. rewrite file_text_cons. cbn [fst snd].
    rewrite (FileAttrs_read_written _ _ _ _ _ _ Hn Hlen), skip_ws_file_text.
    rewrite (scannable_nonempty _ Hn). cbn [load_records fst snd].
    apply IH; [done| |simpl in Hf; lia].
    by replace (S i + length l)%nat with (i + length ((n, a) :: l))%nat
      by (simpl; lia).
Qed.

Lemma load_records_notin junk l : forall i m n,
  n ∉ l.*1 -> load_records junk i l m !! n = m !! n.
Proof.
  induction l as [|[k a] l IH]; intros i m n Hn; [done|].
  cbn [load_records fst snd].
  change (n ∉ k :: l.*1) in Hn. apply not_elem_of_cons in Hn as [Hk Hn].
  rewrite IH by done. by rewrite lookup_insert_ne.
Qed.

Lemma load_records_in junk l : forall i m n a,
  NoDup l.*1 -> (n, a) ∈ l ->
  exists j, load_records junk i l m !! n = Some (Some (reloaded (junk j) a)).
Proof.
  induction l as [|[k b] l IH]; intros i m n a Hnd Hin.
  - by apply elem_of_nil in Hin.
  - change (NoDup (k :: l.*1)) in Hnd. apply NoDup_cons in Hnd as [Hk Hnd].
    cbn [load_records fst snd]. apply elem_of_cons in Hin as [[= -> ->]|Hin].
    + exists i. rewrite load_records_notin by done. apply lookup_insert_eq.
    + by apply IH.
Qed.

Lemma NoDup_records m : NoDup (records m).*1.
Proof.
  unfold records.
  assert (H : NoDup (in_order m).*1).
  { unfold in_order. rewrite merge_sort_Permutation.
    apply NoDup_fst_map_to_list. }
  induction (in_order m) as [|[n [a|]] l IH]; [constructor| |];
    change (NoDup (n :: l.*1)) in H; apply NoDup_cons in H as [Hn H].
  - change (NoDup (n :: (omap (fun e => a ← e.2; Some (e.1, a)) l).*1)).
    apply NoDup_cons. split; [|by apply IH]. intros Hin. apply Hn.
    apply list_elem_of_fmap in Hin as ([k b] & -> & Hin). simpl.
    apply list_elem_of_omap in Hin as ([k' [b'|]] & Hin & Heq);
      simpl in Heq; [|done]. injection Heq as -> ->.
    apply list_elem_of_fmap. by exists (k, Some b).
  - by apply IH.
Qed.

Lemma reloaded_fields u a :
  wf_attrs a ->
  mode (reloaded u a) = mode a /\ uid (reloaded u a) = uid a /\
  gid (reloaded u a) = gid a /\ reserved (reloaded u a) = reserved a.
Proof.
  intros (Hm & Hu & Hg & Hr). unfold reloaded, wrap32, signed32, wrap32. simpl.
  rewrite !Z.mod_small by lia. repeat split.
  destruct (Z.ltb_spec (reserved a mod 2 ^ 32) (2 ^ 31)) as [H|H].
  - destruct (Z.le_gt_cases 0 (reserved a)).
    + by rewrite Z.mod_small by lia.
    + rewrite <- (Z.mod_add _ 1), Z.mod_small in H by lia. lia.
  - destruct (Z.le_gt_cases 0 (reserved a)).
    + rewrite Z.mod_small in H by lia. lia.
    + rewrite <- (Z.mod_add _ 1), Z.mod_small by lia. lia.
Qed.

(** C6, as amended. Take a store in which every non-null entry has a name
    that is not empty, holds no white space and no NUL and is shorter than
    [MAXNAMELEN], the size of the name buffer of the constructor, and fields
    within the range of their C types; let the store hold at least one entry
    and its sidecar file open for writing, and let the uninitialised name
    buffer of the constructor read as an empty string when the end of the
    file is reached. Then the flush writes the file, the read loop of a new
    store on that file ends without writing past the buffer, and the new
    store holds exactly the names of the non-null entries, each with the
    mode, uid, gid and reserved value of the original; the size and time
    fields are not in the file and come back as whatever the new object
    held. *)
Theorem flush_then_load MAXNAMELEN host db junk fuel dir :
  (forall n a, attrs db !! n = Some (Some a) ->
     scannable n = true /\ (String.length n < MAXNAMELEN)%nat /\ wf_attrs a) ->
  (0 < base.size (attrs db))%nat ->
  fopen_w host (db_path db) = true ->
  c_str (u_cname (junk (length (records (attrs db))))) = [] ->
  (length (records (attrs db)) < fuel)%nat ->
  exists db' txt m,
    FileAttrDB_Write host db = (db', Some txt) /\
    FileAttrDB_open MAXNAMELEN fuel junk dir (Some txt)
      = Done (mkFileAttrDB
                (String.append dir (String.append "/" FILE_TABLE_NAME)) m) /\
    (forall n, is_Some (m !! n) <-> exists a, attrs db !! n = Some (Some a)) /\
    (forall n a, attrs db !! n = Some (Some a) ->
       exists j a',
         m !! n = Some (Some a') /\ a' = reloaded (junk j) a /\
         mode a' = mode a /\ uid a' = uid a /\ gid a' = gid a /\
         reserved a' = reserved a).
Proof.
  intros Hwf Hs Ho Hj Hf.
  destruct (FileAttrDB_Write_opened host db Hs Ho) as (m0 & HW & _).
  assert (Hsc : Forall (fun e => scannable e.1 = true /\
                                 (String.length e.1 < MAXNAMELEN)%nat)
                  (records (attrs db))).
  { apply Forall_forall. intros [n a] Hin%elem_of_records.
    destruct (Hwf n a Hin) as (? & ? & _). by split. }
  pose proof (FileAttrDB_load_written MAXNAMELEN junk (records (attrs db))
                fuel 0 ∅ Hsc Hj Hf) as HL.
  eexists _, _, (load_records junk 0 (records (attrs db)) ∅).
  split; [exact HW|]. split; [unfold FileAttrDB_open; by rewrite HL|]. split.
  - intros n. split.
    + intros Hn. destruct (decide (n ∈ (records (attrs db)).*1)) as [Hin|Hin].
      * apply list_elem_of_fmap in Hin as ([k a] & -> & Hin).
        exists a. by apply elem_of_records.
      * rewrite load_records_notin, lookup_empty in Hn by done.
        by destruct Hn.
    + intros [a Ha%elem_of_records].
      destruct (load_records_in junk _ 0 ∅ n a (NoDup_records _) Ha) as [j ->].
      by eexists.
  - intros n a Ha. pose proof Ha as Hr%elem_of_records.
    destruct (load_records_in junk _ 0 ∅ n a (NoDup_records _) Hr) as [j Hjn].
    destruct (Hwf n a Ha) as (_ & _ & Hw).
    destruct (reloaded_fields (junk j) a Hw) as (? & ? & ? & ?).
    by exists j, (reloaded (junk j) a).
Qed.

Lemma flush_then_load_witness :
  (forall n a, attrs store_ab !! n = Some (Some a) ->
     scannable n = true /\ (String.length n < 6)%nat /\ wf_attrs a) /\
  exists db' txt m,
    FileAttrDB_Write host_links store_ab = (db', Some txt) /\
    FileAttrDB_open 6 3 junk_zero "/d" (Some txt)
      = Done (mkFileAttrDB "/d/.nfsd_fattrs" m) /\
    (forall n, is_Some (m !! n) <-> exists a, attrs store_ab !! n = Some (Some a)) /\
    (forall n a, attrs store_ab !! n = Some (Some a) ->
       exists j a',
         m !! n = Some (Some a') /\ a' = reloaded (junk_zero j) a /\
         mode a' = mode a /\ uid a' = uid a /\ gid a' = gid a /\
         reserved a' = reserved a).
Proof.
  assert (H : forall n a, attrs store_ab !! n = Some (Some a) ->
                scannable n = true /\ (String.length n < 6)%nat /\ wf_attrs a).
  { intros n a. unfold store_ab. cbn [attrs].
    rewrite lookup_insert. case_decide as H1.
    - intros [= <-]. subst n. split; [reflexivity|]. split; [simpl; lia|].
      repeat split; by vm_compute.
    - rewrite lookup_insert. case_decide as H2; [|by rewrite lookup_empty].
      intros [= <-]. subst n. split; [reflexivity|]. split; [simpl; lia|].
      repeat split; by vm_compute. }
  split; [exact H|].
  apply (flush_then_load 6 host_links store_ab junk_zero 3 "/d" H).
  - vm_compute. lia.
  - reflexivity.
  - reflexivity.
  - vm_compute. lia.
Defined.

(** C6 as stated fails. A record under the name [a b] is written as the line
    [0600:1:2:0:a b]; [%s] reads the name back up to the blank, and the next
    turn of the read loop finds [b] where a line should start and stops: the
    new store holds the record under the name [a]. And a record with a size
    of 100 comes back with the size that the new object happened to hold,
    since the line does not carry it. Both names fit a buffer of 256
    bytes. *)
Lemma reload_differs :
  FileAttrDB_Write host_links (store_one "a b" (attrs_of 384 1 2))
    = (store_one "a b" (attrs_of 384 1 2),
       Some (list_ascii_of_string "0600:1:2:0:a b" ++ ["010"%char])) /\
  FileAttrDB_load 256 3 junk_zero 0
    (list_ascii_of_string "0600:1:2:0:a b" ++ ["010"%char]) ∅
    = Done {["a"%string := Some (attrs_of 384 1 2)]} /\
  FileAttrDB_Write host_links
    (store_one "a.txt" (mkFileAttrs 384 1 2 100 0 0 0 0 0))
    = (store_one "a.txt" (mkFileAttrs 384 1 2 100 0 0 0 0 0),
       Some (list_ascii_of_string "0600:1:2:0:a.txt" ++ ["010"%char])) /\
  FileAttrDB_load 256 3 junk_zero 0
    (list_ascii_of_string "0600:1:2:0:a.txt" ++ ["010"%char]) ∅
    = Done {["a.txt"%string := Some (mkFileAttrs 384 1 2 0 0 0 0 0 0)]}.
Proof. repeat split; vm_compute; reflexivity. Qed.

(** ** The constructor inside the file table *)

Lemma FileAttrDB_load_non_null MAXNAMELEN fuel junk : forall i file m m',
  (forall n v, m !! n = Some v -> is_Some v) ->
  FileAttrDB_load MAXNAMELEN fuel junk i file m = Done m' ->
  forall n v, m' !! n = Some v -> is_Some v.
Proof.
  induction fuel as [|fuel IH]; intros i file m m' Hm; [done|].
  cbn [FileAttrDB_load].
  destruct (FileAttrs_read MAXNAMELEN (junk i) EmptyString file)
    as [[[fattrs fname] rest]|]; [|done].
  destruct (String.length fname =? 0)%nat.
  - by intros [= <-].
  - apply IH. intros n v. rewrite lookup_insert. case_decide; [|by apply Hm].
    intros [= <-]. by eexists.
Qed.

(** Whatever the read loop stores is a record, never a null pointer; so the
    outcome of a constructor that ends is a store of the shape
    [FileAttrDB_new] builds, and the two agree when the host reports that
    outcome. *)
Lemma FileAttrDB_open_new MAXNAMELEN fuel junk dir file db :
  FileAttrDB_open MAXNAMELEN fuel junk dir file = Done db ->
  exists m0,
    attrs db = Some <$> m0 /\
    forall host, sidecar host (db_path db) = m0 -> FileAttrDB_new host dir = db.
Proof.
  unfold FileAttrDB_open. destruct file as [txt|].
  - destruct (FileAttrDB_load MAXNAMELEN fuel junk 0 txt ∅) as [m| |] eqn:E;
      [|done..].
    simpl. intros [= <-]. exists (omap id m).
    assert (Hm : m = Some <$> omap id m).
    { apply map_eq. intros n. rewrite lookup_fmap, lookup_omap.
      destruct (m !! n) as [v|] eqn:En; [|done]. simpl.
      destruct (FileAttrDB_load_non_null _ _ _ _ _ _ _
                  ltac:(intros ? ?; by rewrite lookup_empty) E n v En)
        as [a ->]. done. }
    split; [exact Hm|]. intros host Hs. unfold FileAttrDB_new.
    simpl in Hs. by rewrite Hs, <- Hm.
  - intros [= <-]. exists ∅. split; [by rewrite fmap_empty|].
    intros host Hs. unfold FileAttrDB_new. simpl in Hs.
    by rewrite Hs, fmap_empty.
Qed.

(** ** When [Move] completes *)

(** [Move] sets a record for [pathTo] only when [stat] succeeded for
    [pathFrom]; otherwise nothing in it dereferences a pointer. *)
Lemma Move_completes host pathFrom pathTo s :
  host_stat host (canonicalize host (canonicalize host pathFrom)) = None ->
  is_Some (Move host pathFrom pathTo s).
Proof.
  intros Hst. unfold Move. destruct (path2handle s !! _); [|by eexists].
  rewrite Stat_unfold, Hst. simpl. by eexists.
Qed.

(** A [Stat] of [/d/x] leaves a null entry for [x]; a [Move] onto [/d/x]
    then calls [Update] through it. *)
Example Move_onto_null_entry :
  Move host_links "/d/a" "/d/x"
    (Stat host_links "/d/x" stat_zero table_a_overlay).2 = None.
Proof. vm_compute. reflexivity. Qed.

(** * Further properties of the file table *)

(** ** The arithmetic of handles *)

Lemma land_high_low A B : 0 <= B < 2 ^ 32 -> Z.land (A * 2 ^ 32) B = 0.
Proof.
  intros HB. apply Z.bits_inj'. intros n Hn.
  rewrite Z.land_spec, Z.bits_0.
  destruct (Z.lt_ge_cases n 32) as [Hlt|Hge].
  - by rewrite Z.mul_pow2_bits_low.
  - destruct (Z.eq_dec B 0) as [->|HB0].
    + by rewrite Z.bits_0, andb_false_r.
    + rewrite (Z.bits_above_log2 B n), andb_false_r; [done|lia|].
      apply Z.lt_le_trans with 32; [|done].
      apply Z.log2_lt_pow2; lia.
Qed.

Lemma high_plus_low A B :
  0 <= B < 2 ^ 32 ->
  Z.lor (A * 2 ^ 32) B = A * 2 ^ 32 + B /\
  Z.lxor (A * 2 ^ 32) B = A * 2 ^ 32 + B.
Proof.
  intros HB. pose proof (land_high_low A B HB) as H0.
  rewrite <- (Z.lxor_lor _ _ H0). split; symmetry; by apply Z.add_nocarry_lxor.
Qed.

(** [rotl] by 32 swaps the two halves of a 64-bit value. *)
Lemma rotl_32_halves x :
  0 <= x < 2 ^ 64 -> rotl x 32 = (x mod 2 ^ 32) * 2 ^ 32 + x / 2 ^ 32.
Proof.
  intros Hx. unfold rotl, wrap64.
  change (64 - 32) with 32.
  rewrite Z.shiftl_mul_pow2, Z.shiftr_div_pow2 by lia.
  change (2 ^ 64) with (2 ^ 32 * 2 ^ 32).
  rewrite Z.mul_mod_distr_r by lia.
  apply high_plus_low. split; [apply Z.div_pos; lia|].
  apply Z.div_lt_upper_bound; lia.
Qed.

Lemma lxor_below a b n :
  0 < n -> 0 <= a < 2 ^ n -> 0 <= b < 2 ^ n -> 0 <= Z.lxor a b < 2 ^ n.
Proof.
  intros Hn Ha Hb.
  assert (H0 : 0 <= Z.lxor a b) by (apply Z.lxor_nonneg; lia).
  split; [done|].
  destruct (Z.eq_dec (Z.lxor a b) 0) as [->|Hne]; [lia|].
  apply Z.log2_lt_pow2; [lia|].
  eapply Z.le_lt_trans; [apply Z.log2_lxor; lia|].
  apply Z.max_lub_lt.
  - destruct (Z.eq_dec a 0) as [->|]; [simpl; lia|]. apply Z.log2_lt_pow2; lia.
  - destruct (Z.eq_dec b 0) as [->|]; [simpl; lia|]. apply Z.log2_lt_pow2; lia.
Qed.

Lemma wrap64_range x : 0 <= wrap64 x < 2 ^ 64.
Proof. unfold wrap64. apply Z.mod_pos_bound. lia. Qed.

(** X1. Whatever device and inode numbers [stat] reports,
    [make_file_handle] yields a 64-bit value other than 0. *)
Theorem make_file_handle_range fstat :
  0 < make_file_handle fstat < 2 ^ 64.
Proof.
  unfold make_file_handle.
  pose proof (wrap64_range (st_dev fstat)) as Hd.
  pose proof (wrap64_range (st_ino fstat)) as Hi.
  assert (Hr : 0 <= rotl (wrap64 (st_dev fstat)) 32 < 2 ^ 64).
  { rewrite rotl_32_halves by done.
    pose proof (Z.mod_pos_bound (wrap64 (st_dev fstat)) (2 ^ 32) ltac:(lia)).
    assert (0 <= wrap64 (st_dev fstat) / 2 ^ 32 < 2 ^ 32).
    { split; [apply Z.div_pos; lia | apply Z.div_lt_upper_bound; lia]. }
    nia. }
  pose proof (lxor_below _ _ 64 ltac:(lia) Hr Hi) as Hx.
  destruct (Z.eqb_spec (Z.lxor (rotl (wrap64 (st_dev fstat)) 32)
                          (wrap64 (st_ino fstat))) 0) as [->|Hne].
  - by vm_compute.
  - lia.
Qed.

Lemma make_file_handle_pair fstat :
  0 <= st_dev fstat < 2 ^ 32 -> 0 <= st_ino fstat < 2 ^ 32 ->
  (st_dev fstat, st_ino fstat) <> (0, 0) ->
  make_file_handle fstat = st_dev fstat * 2 ^ 32 + st_ino fstat.
Proof.
  intros Hd Hi Hne. unfold make_file_handle.
  assert (Ed : wrap64 (st_dev fstat) = st_dev fstat)
    by (unfold wrap64; apply Z.mod_small; lia).
  assert (Ei : wrap64 (st_ino fstat) = st_ino fstat)
    by (unfold wrap64; apply Z.mod_small; lia).
  rewrite Ed, Ei, rotl_32_halves by lia.
  rewrite (Z.mod_small (st_dev fstat)), (Z.div_small (st_dev fstat)),
    Z.add_0_r by lia.
  destruct (high_plus_low (st_dev fstat) (st_ino fstat) Hi) as [_ ->].
  destruct (Z.eqb_spec (st_dev fstat * 2 ^ 32 + st_ino fstat) 0) as [E|]; [|done].
  contradict Hne. f_equal; lia.
Qed.

(** X2. When device and inode numbers fit 32 bits, the handle is the device
    number in the upper half and the inode number in the lower half, except
    for device 0 and inode 0, which get the handle of all ones. *)
Theorem make_file_handle_halves fstat :
  0 <= st_dev fstat < 2 ^ 32 -> 0 <= st_ino fstat < 2 ^ 32 ->
  make_file_handle fstat =
    if (st_dev fstat =? 0) && (st_ino fstat =? 0) then 2 ^ 64 - 1
    else st_dev fstat * 2 ^ 32 + st_ino fstat.
Proof.
  intros Hd Hi.
  destruct (Z.eqb_spec (st_dev fstat) 0) as [E1|E1],
    (Z.eqb_spec (st_ino fstat) 0) as [E2|E2]; cbn [andb].
  - unfold make_file_handle. rewrite E1, E2. by vm_compute.
  - apply make_file_handle_pair; [done..|]. intros [= ? ?]. done.
  - apply make_file_handle_pair; [done..|]. intros [= ? ?]. done.
  - apply make_file_handle_pair; [done..|]. intros [= ? ?]. done.
Qed.

Lemma make_file_handle_halves_witness :
  0 <= st_dev (stat_of 1 10 mode_reg_644) < 2 ^ 32 /\
  0 <= st_ino (stat_of 1 10 mode_reg_644) < 2 ^ 32 /\
  make_file_handle (stat_of 1 10 mode_reg_644) = 1 * 2 ^ 32 + 10.
Proof.
  assert (H1 : 0 <= st_dev (stat_of 1 10 mode_reg_644) < 2 ^ 32) by (simpl; lia).
  assert (H2 : 0 <= st_ino (stat_of 1 10 mode_reg_644) < 2 ^ 32) by (simpl; lia).
  split; [exact H1|]. split; [exact H2|].
  exact (make_file_handle_halves _ H1 H2).
Defined.

(** X3. Two files whose device and inode numbers fit 32 bits and are not
    both 0 get the same handle only when they have the same device and the
    same inode. *)
Theorem make_file_handle_injective f1 f2 :
  0 <= st_dev f1 < 2 ^ 32 -> 0 <= st_ino f1 < 2 ^ 32 ->
  0 <= st_dev f2 < 2 ^ 32 -> 0 <= st_ino f2 < 2 ^ 32 ->
  (st_dev f1, st_ino f1) <> (0, 0) -> (st_dev f2, st_ino f2) <> (0, 0) ->
  make_file_handle f1 = make_file_handle f2 ->
  st_dev f1 = st_dev f2 /\ st_ino f1 = st_ino f2.
Proof.
  intros Hd1 Hi1 Hd2 Hi2 Hn1 Hn2.
  rewrite !make_file_handle_pair by done. lia.
Qed.

Lemma make_file_handle_injective_witness :
  make_file_handle (stat_of 1 10 mode_reg_644)
    = make_file_handle (stat_of 1 10 mode_dir_755) /\
  st_dev (stat_of 1 10 mode_reg_644) = st_dev (stat_of 1 10 mode_dir_755) /\
  st_ino (stat_of 1 10 mode_reg_644) = st_ino (stat_of 1 10 mode_dir_755).
Proof.
  split; [reflexivity|].
  apply (make_file_handle_injective (stat_of 1 10 mode_reg_644)
           (stat_of 1 10 mode_dir_755));
    first [reflexivity | simpl; lia | discriminate].
Defined.

(** ** Handles that [GetFileHandle] gives out *)

Lemma handles_nonzero_same s s' :
  path2handle s' = path2handle s -> handles_nonzero s -> handles_nonzero s'.
Proof. unfold handles_nonzero. by intros ->. Qed.

Lemma step_handles_nonzero host c s s' :
  handles_nonzero s -> step host c s = Some s' -> handles_nonzero s'.
Proof.
  intros Hn. destruct c; simpl; try (intros [= <-]).
  - destruct (Stat_handles host path buf s) as (E & _).
    by apply (handles_nonzero_same s).
  - unfold GetFileHandle.
    destruct (path2handle s !! canonicalize host path) eqn:E; [done|].
    destruct (host_stat host (canonicalize host path)); [|done].
    intros q k. simpl. rewrite lookup_insert. case_decide; [|apply Hn].
    intros [= <-]. apply make_file_handle_nonzero.
  - intros HM.
    destruct (path2handle s !! canonicalize host pathFrom) as [h|] eqn:E.
    + destruct (Move_handles host _ _ s h s' E HM) as [E1 _].
      intros q h'. rewrite E1, lookup_insert. case_decide.
      * intros [= <-]. by apply (Hn _ _ E).
      * rewrite lookup_delete. case_decide; [done|]. apply Hn.
    + unfold Move in HM. rewrite E in HM. by injection HM as <-.
  - destruct (path2handle s !! canonicalize host path) as [h|] eqn:E.
    + destruct (Remove_handles host path s h E) as [E1 _].
      intros q h'. rewrite E1, lookup_delete. case_decide; [done|]. apply Hn.
    + unfold Remove. by rewrite E.
  - intros [E _]%SetFileAttrs_handles. by apply (handles_nonzero_same s).
  - destruct (GetFileAttrs_handles host path s) as (E & _).
    by apply (handles_nonzero_same s).
  - destruct (Run_step_handles host s) as [E _].
    by apply (handles_nonzero_same s).
Qed.

Lemma run_handles_nonzero cs : forall s s',
  handles_nonzero s -> run cs s = Some s' -> handles_nonzero s'.
Proof.
  induction cs as [|[host c] cs IH]; simpl; intros s s' Hn Hr.
  - by injection Hr as <-.
  - destruct (step host c s) as [s1|] eqn:E; [|done]. simpl in Hr.
    apply (IH s1); [|done]. by apply (step_handles_nonzero host c s).
Qed.

(** X4. In every table that calls lead to from the initial one, every
    registered handle differs from 0; so [GetFileHandle] returns 0 exactly
    when the canonical path is not registered and its [stat] fails, and then
    it leaves the table as it is. *)
Theorem GetFileHandle_zero host p s :
  reached s ->
  handles_nonzero s /\
  ((GetFileHandle host p s).1 = 0 <->
   path2handle s !! canonicalize host p = None /\
   host_stat host (canonicalize host p) = None) /\
  ((GetFileHandle host p s).1 = 0 -> (GetFileHandle host p s).2 = s).
Proof.
  intros [cs Hr].
  assert (Hn : handles_nonzero s).
  { apply (run_handles_nonzero cs FileTable_init); [|done].
    intros q h. simpl. by rewrite lookup_empty. }
  split; [done|]. unfold GetFileHandle.
  destruct (path2handle s !! canonicalize host p) as [h|] eqn:E.
  - simpl. pose proof (Hn _ _ E). split; [|done]. split; [done|]. by intros [? _].
  - destruct (host_stat host (canonicalize host p)) as [st|]; simpl.
    + pose proof (make_file_handle_nonzero st). split; [|done].
      split; [done|]. by intros [_ ?].
    + done.
Qed.

Lemma GetFileHandle_zero_witness :
  reached table_hard_links /\
  (GetFileHandle host_links "/d/gone" table_hard_links).1 = 0 /\
  (GetFileHandle host_links "/d/gone" table_hard_links).2 = table_hard_links.
Proof.
  assert (H : reached table_hard_links) by reached_by_run.
  destruct (GetFileHandle_zero host_links "/d/gone" table_hard_links H)
    as (_ & [_ Hz] & Hs).
  assert (E : (GetFileHandle host_links "/d/gone" table_hard_links).1 = 0)
    by (apply Hz; split; reflexivity).
  split; [exact H|]. split; [exact E | exact (Hs E)].
Defined.

(** X5. Asking again gives the same answer: a second [GetFileHandle] of the
    same path on the same host returns the handle of the first and leaves
    the table the first produced. *)
Theorem GetFileHandle_twice host p s :
  GetFileHandle host p (GetFileHandle host p s).2 = GetFileHandle host p s.
Proof.
  unfold GetFileHandle.
  destruct (path2handle s !! canonicalize host p) as [h|] eqn:E; simpl.
  - by rewrite E.
  - destruct (host_stat host (canonicalize host p)) as [st|] eqn:Est; simpl.
    + by rewrite lookup_insert_eq.
    + by rewrite E.
Qed.

(** X6. A handle once given stays: after a [GetFileHandle] that returned a
    handle other than 0, any path with the same canonical form gets that
    handle, whatever [stat] says by then, and the table does not change. *)
Theorem GetFileHandle_sticky host p s host' p' :
  (GetFileHandle host p s).1 <> 0 ->
  canonicalize host' p' = canonicalize host p ->
  GetFileHandle host' p' (GetFileHandle host p s).2 = GetFileHandle host p s.
Proof.
  intros Hnz Hc. unfold GetFileHandle in *. rewrite Hc.
  destruct (path2handle s !! canonicalize host p) as [h|] eqn:E; simpl.
  - by rewrite E.
  - destruct (host_stat host (canonicalize host p)) as [st|] eqn:Est;
      simpl in *; [|done].
    by rewrite lookup_insert_eq.
Qed.

Lemma GetFileHandle_sticky_witness :
  (GetFileHandle host_links "/d/a" FileTable_init).1 <> 0 /\
  canonicalize (host_one "/d/b" 12) "/d/a" = canonicalize host_links "/d/a" /\
  host_stat (host_one "/d/b" 12) "/d/a" = None /\
  GetFileHandle (host_one "/d/b" 12) "/d/a"
    (GetFileHandle host_links "/d/a" FileTable_init).2
  = GetFileHandle host_links "/d/a" FileTable_init.
Proof.
  assert (H1 : (GetFileHandle host_links "/d/a" FileTable_init).1 <> 0)
    by (vm_compute; discriminate).
  split; [exact H1|]. split; [reflexivity|]. split; [reflexivity|].
  apply (GetFileHandle_sticky host_links "/d/a" FileTable_init
           (host_one "/d/b" 12) "/d/a" H1).
  reflexivity.
Defined.

(** ** Paths: the key of the store and the name of the entry *)

Lemma after_last_sep_none s : no_sep s = true -> after_last_sep s = None.
Proof.
  induction s as [|c s IH]; [done|]. cbn [no_sep after_last_sep].
  intros [Hc Hs]%andb_true_iff. rewrite (IH Hs).
  by apply negb_true_iff in Hc as ->.
Qed.

Lemma after_last_sep_spec s :
  match after_last_sep s with
  | Some t =>
      no_sep t = true /\
      exists pre c, is_sep c = true /\ s = String.append pre (String c t)
  | None => no_sep s = true
  end.
Proof.
  induction s as [|c s IH]; [done|]. cbn [after_last_sep].
  destruct (after_last_sep s) as [t|].
  - destruct IH as (Ht & pre & d & Hd & ->). split; [done|].
    by exists (String c pre), d.
  - destruct (is_sep c) eqn:Hc.
    + split; [done|]. by exists EmptyString, c.
    + cbn [no_sep]. by rewrite Hc, IH.
Qed.

(** X7. [filename] returns the part of the path after its last slash or
    backslash: the result holds neither, and the path is the result with
    either nothing before it, when the path holds neither, or something that
    ends with one of the two. *)
Theorem filename_is_last_component path :
  no_sep (filename path) = true /\
  ((no_sep path = true /\ filename path = path) \/
   exists pre c,
     is_sep c = true /\
     path = String.append pre (String c (filename path))).
Proof.
  unfold filename. pose proof (after_last_sep_spec path) as H.
  destruct (after_last_sep path) as [t|]; simpl.
  - destruct H as (Ht & pre & c & Hc & E). split; [done|]. right. eauto.
  - split; [done|]. by left.
Qed.

(** X8. Of a directory, a slash or backslash and a name that holds neither,
    [filename] returns the name. *)
Theorem filename_of_join dir c name :
  is_sep c = true -> no_sep name = true ->
  filename (String.append dir (String c name)) = name.
Proof.
  intros Hc Hn. unfold filename.
  assert (H : after_last_sep (String.append dir (String c name)) = Some name).
  { induction dir as [|d dir IH]; simpl.
    - by rewrite (after_last_sep_none _ Hn), Hc.
    - by rewrite IH. }
  by rewrite H.
Qed.

Lemma filename_of_join_witness :
  filename (String.append "/d" (String "/" "a.txt")) = "a.txt"%string.
Proof. apply filename_of_join; reflexivity. Defined.

Lemma list_ascii_of_string_app s1 s2 :
  list_ascii_of_string (String.append s1 s2)
  = list_ascii_of_string s1 ++ list_ascii_of_string s2.
Proof. induction s1 as [|c s1 IH]; simpl; [done|]. by rewrite IH. Qed.

Lemma drop_while_all f l r :
  forallb f l = true -> drop_while f (l ++ r) = drop_while f r.
Proof.
  induction l as [|c l IH]; [done|]. simpl.
  intros [Hc Hl]%andb_true_iff. rewrite Hc. by apply IH.
Qed.

Lemma forallb_rev (f : ascii -> bool) l :
  forallb f (rev l) = forallb f l.
Proof.
  induction l as [|c l IH]; [done|]. simpl.
  rewrite forallb_app, IH. simpl. by rewrite andb_true_r, andb_comm.
Qed.

Lemma dirname_steps path r1 r2 :
  drop_while is_slash (rev (list_ascii_of_string path)) = r1 -> r1 <> [] ->
  drop_while (fun c => negb (is_slash c)) r1 = r2 -> r2 <> [] ->
  dirname path =
    match drop_while is_slash r2 with
    | [] => root_of (length r2)
    | r3 => string_of_list_ascii (rev r3)
    end.
Proof.
  intros E1 H1 E2 H2. unfold dirname.
  destruct (list_ascii_of_string path) as [|c cs].
  { simpl in E1. by subst r1. }
  rewrite E1. destruct r1 as [|a1 r1]; [done|].
  rewrite E2. by destruct r2.
Qed.

(** Of a path made of a directory, a slash and an entry name, [dirname]
    returns the directory where it does not end with a slash, and the root
    where it is empty. *)
Lemma dirname_of_join dir name :
  entry_name name = true ->
  dir = EmptyString \/ ends_plain dir = true ->
  dirname (String.append dir (String "/" name))
  = if bool_decide (dir = EmptyString) then "/"%string else dir.
Proof.
  unfold entry_name, ends_plain. intros Hn Hd.
  destruct (list_ascii_of_string name) as [|n0 ln] eqn:En; [done|].
  assert (Hr : forallb (fun c => negb (is_slash c)) (rev (n0 :: ln)) = true)
    by by rewrite forallb_rev.
  destruct (rev (n0 :: ln)) as [|y ys] eqn:Ey.
  { apply (f_equal (@length _)) in Ey. rewrite length_rev in Ey. done. }
  assert (Hy : is_slash y = false).
  { cbn [forallb] in Hr. apply andb_true_iff in Hr as [Hy _].
    by apply negb_true_iff in Hy. }
  set (ld := list_ascii_of_string dir) in *.
  assert (ER : rev (list_ascii_of_string (String.append dir (String "/" name)))
               = (y :: ys) ++ "/"%char :: rev ld).
  { rewrite list_ascii_of_string_app. cbn [list_ascii_of_string].
    rewrite En, rev_app_distr.
    change (rev ("/"%char :: n0 :: ln)) with (rev (n0 :: ln) ++ ["/"%char]).
    rewrite Ey, <- app_assoc. done. }
  rewrite (dirname_steps _ ((y :: ys) ++ "/"%char :: rev ld)
             ("/"%char :: rev ld)).
  - change (drop_while is_slash ("/"%char :: rev ld))
      with (drop_while is_slash (rev ld)).
    destruct Hd as [->|Hd].
    + by rewrite bool_decide_eq_true_2.
    + destruct (rev ld) as [|z zs] eqn:Ez; [done|].
      cbn [drop_while]. apply negb_true_iff in Hd. rewrite Hd.
      rewrite <- Ez, rev_involutive. subst ld.
      rewrite string_of_list_ascii_of_string.
      rewrite bool_decide_eq_false_2; [done|]. intros ->. done.
  - rewrite ER. cbn [app drop_while]. by rewrite Hy.
  - done.
  - by rewrite (drop_while_all _ _ _ Hr).
  - done.
Qed.

Lemma c_str_no_nul cs :
  forallb (fun c => negb (Ascii.eqb c zero)) cs = true -> c_str cs = cs.
Proof.
  induction cs as [|c cs IH]; [done|]. cbn [forallb c_str].
  intros [Hc Hcs]%andb_true_iff. apply negb_true_iff in Hc.
  by rewrite Hc, IH.
Qed.

(** A path without NUL and of fewer than [MAXPATHLEN - 1] characters comes
    out of [strncpy] as it went in. *)
Lemma GetDB_tmp_short host path :
  no_nul path = true ->
  Z.of_nat (String.length path) < MAXPATHLEN - 1 ->
  GetDB_tmp host path = path.
Proof.
  unfold no_nul, GetDB_tmp. intros Hn Hl. rewrite (c_str_no_nul _ Hn).
  rewrite length_list_ascii_of_string.
  destruct (Z.ltb_spec (Z.of_nat (String.length path)) (MAXPATHLEN - 1));
    [|lia].
  apply string_of_list_ascii_of_string.
Qed.

(** X9. For a path whose canonical form is made of a directory, a slash and
    an entry name, holds no NUL and has fewer than [MAXPATHLEN - 1]
    characters, [GetDB] files the store under the directory where it does
    not end with a slash, and under the root where it is empty. *)
Theorem GetDB_key_of_join host p s dir name :
  canonicalize host p = String.append dir (String "/" name) ->
  entry_name name = true ->
  dir = EmptyString \/ ends_plain dir = true ->
  no_nul (canonicalize host p) = true ->
  Z.of_nat (String.length (canonicalize host p)) < MAXPATHLEN - 1 ->
  (GetDB host p s).1.1 = (if bool_decide (dir = EmptyString) then "/"%string else dir) /\
  is_Some (path2db (GetDB host p s).2
             !! if bool_decide (dir = EmptyString) then "/"%string else dir).
Proof.
  intros Hc Hn Hd Hz Hl.
  destruct (GetDB host p s) as [[k db] s1] eqn:E.
  apply GetDB_spec in E as (-> & Hk & _). cbn [fst snd].
  assert (Hkey : dbdir host (canonicalize host p)
                 = if bool_decide (dir = EmptyString) then "/"%string else dir).
  { unfold dbdir. rewrite (GetDB_tmp_short _ _ Hz Hl), Hc.
    by apply dirname_of_join. }
  rewrite <- Hkey. split; [done | by eexists].
Qed.

Lemma GetDB_key_of_join_witness :
  (GetDB host_links "/d/a" table_a_overlay).1.1 = "/d"%string /\
  (GetDB (host_one "/a.txt" 5) "/a.txt" FileTable_init).1.1 = "/"%string.
Proof.
  split.
  - apply (GetDB_key_of_join host_links "/d/a" table_a_overlay "/d" "a");
      [reflexivity | reflexivity | by right | reflexivity | by vm_compute].
  - apply (GetDB_key_of_join (host_one "/a.txt" 5) "/a.txt" FileTable_init
             EmptyString "a.txt");
      [reflexivity | reflexivity | by left | reflexivity | by vm_compute].
Defined.

(** ** Setting, reading and erasing records *)

Lemma FileAttrs_Update_eq old a : FileAttrs_Update old a = a.
Proof. by destruct a. Qed.

Lemma set_path2db_id s k db :
  path2db s !! k = Some db -> set_path2db s k db = s.
Proof.
  intros H. unfold set_path2db. rewrite (insert_id _ _ _ H). by destruct s.
Qed.

Lemma GetFileAttrs_entry host p s v :
  entry s (dbdir host (canonicalize host p)) (filename p) = Some v ->
  (GetFileAttrs host p s).1 = v.
Proof.
  unfold entry. destruct (path2db s !! _) as [db|] eqn:E; [|done]. simpl.
  intros Hv. unfold GetFileAttrs, FileAttrDB_GetFileAttrs.
  by rewrite (GetDB_cached _ _ _ _ E), Hv.
Qed.

Lemma SetFileAttrs_entry host p a s s' :
  SetFileAttrs host p a s = Some s' ->
  filename p <> "."%string -> filename p <> ".."%string ->
  entry s' (dbdir host (canonicalize host p)) (filename p) = Some (Some a) /\
  dbdir host (canonicalize host p) ∈ dirty s'.
Proof.
  unfold SetFileAttrs. destruct (GetDB host p s) as [[k db] s1] eqn:E.
  apply GetDB_spec in E as (-> & _).
  unfold FileAttrDB_SetFileAttrs.
  intros H H1 H2. rewrite !bool_decide_eq_false_2 in H by done. simpl in H.
  unfold entry.
  destruct (attrs db !! filename p) as [[old|]|]; [| done |];
    injection H as <-; unfold store_back; simpl;
    rewrite lookup_insert_eq; simpl; rewrite lookup_insert_eq;
    unfold FileAttrs_copy; rewrite FileAttrs_Update_eq;
    (split; [done | set_solver]).
Qed.

(** X10. A record set is the record read: when [SetFileAttrs] completes for
    a path whose file name is neither [.] nor [..], [GetFileAttrs] of that
    path returns the record given, and the store of its directory is in the
    dirty set. *)
Theorem SetFileAttrs_then_Get host p a s s' :
  SetFileAttrs host p a s = Some s' ->
  filename p <> "."%string -> filename p <> ".."%string ->
  (GetFileAttrs host p s').1 = Some a /\
  dbdir host (canonicalize host p) ∈ dirty s'.
Proof.
  intros H H1 H2.
  destruct (SetFileAttrs_entry host p a s s' H H1 H2) as [He Hd].
  split; [|done]. by apply GetFileAttrs_entry.
Qed.

Lemma SetFileAttrs_then_Get_witness :
  exists s',
    SetFileAttrs host_links "/d/c" (attrs_of 420 7 8) table_a_overlay = Some s' /\
    (GetFileAttrs host_links "/d/c" s').1 = Some (attrs_of 420 7 8) /\
    dbdir host_links (canonicalize host_links "/d/c") ∈ dirty s'.
Proof.
  destruct (SetFileAttrs host_links "/d/c" (attrs_of 420 7 8) table_a_overlay)
    as [s'|] eqn:E; [|vm_compute in E; discriminate].
  exists s'. split; [reflexivity|].
  apply (SetFileAttrs_then_Get host_links "/d/c" _ table_a_overlay s' E);
    discriminate.
Defined.

(** X11. [SetFileAttrs] records nothing for the names [.] and [..]: the call
    completes, even where the store holds a null entry under that name, and
    leaves the table as the lookup of the store left it, with the dirty set
    unchanged. *)
Theorem SetFileAttrs_skips_dots host p a s :
  filename p = "."%string \/ filename p = ".."%string ->
  SetFileAttrs host p a s = Some (GetDB host p s).2 /\
  dirty (GetDB host p s).2 = dirty s /\
  path2handle (GetDB host p s).2 = path2handle s /\
  handle2path (GetDB host p s).2 = handle2path s.
Proof.
  intros Hd. unfold SetFileAttrs.
  destruct (GetDB host p s) as [[k db] s1] eqn:E.
  apply GetDB_spec in E as (_ & Hk & E1 & E2 & E3 & _).
  unfold FileAttrDB_SetFileAttrs.
  assert (Hb : bool_decide (filename p = "."%string)
               || bool_decide (filename p = ".."%string) = true).
  { destruct Hd as [Hd|Hd]; rewrite Hd; [done|].
    apply orb_true_iff. right. by apply bool_decide_eq_true_2. }
  rewrite Hb. simpl. unfold store_back. simpl.
  by rewrite (set_path2db_id _ _ _ Hk).
Qed.

Lemma SetFileAttrs_skips_dots_witness :
  filename "/d/." = "."%string /\
  SetFileAttrs host_links "/d/." (attrs_of 420 7 8) table_a_overlay
  = Some (GetDB host_links "/d/." table_a_overlay).2.
Proof.
  split; [reflexivity|].
  apply (SetFileAttrs_skips_dots host_links "/d/." (attrs_of 420 7 8)
           table_a_overlay). by left.
Defined.

Lemma GetFileAttrs_null_entry host p s :
  (GetFileAttrs host p s).1 = None ->
  exists db,
    path2db (GetFileAttrs host p s).2 !! dbdir host (canonicalize host p) = Some db /\
    attrs db !! filename p = Some None.
Proof.
  unfold GetFileAttrs. destruct (GetDB host p s) as [[k db] s1] eqn:E.
  apply GetDB_spec in E as (-> & _). unfold FileAttrDB_GetFileAttrs.
  destruct (attrs db !! filename p) as [q|] eqn:Eq; simpl.
  - intros ->. exists db. by rewrite lookup_insert_eq.
  - intros _. eexists. rewrite lookup_insert_eq. split; [done|]. simpl.
    by rewrite lookup_insert_eq.
Qed.

(** X12. A lookup before a first set ends the process: once [GetFileAttrs]
    has returned null for a path whose file name is neither [.] nor [..],
    [SetFileAttrs] of that path calls [Update] through the null pointer the
    lookup left in the store. *)
Theorem GetFileAttrs_then_Set_crashes host p a s :
  (GetFileAttrs host p s).1 = None ->
  filename p <> "."%string -> filename p <> ".."%string ->
  SetFileAttrs host p a (GetFileAttrs host p s).2 = None.
Proof.
  intros Hn H1 H2.
  destruct (GetFileAttrs_null_entry host p s Hn) as (db & Hdb & Hq).
  unfold SetFileAttrs. rewrite (GetDB_cached _ _ _ _ Hdb).
  unfold FileAttrDB_SetFileAttrs.
  by rewrite !bool_decide_eq_false_2, Hq by done.
Qed.

Lemma GetFileAttrs_then_Set_crashes_witness :
  (GetFileAttrs host_links "/d/c" table_a_overlay).1 = None /\
  SetFileAttrs host_links "/d/c" (attrs_of 420 7 8)
    (GetFileAttrs host_links "/d/c" table_a_overlay).2 = None.
Proof.
  assert (H : (GetFileAttrs host_links "/d/c" table_a_overlay).1 = None)
    by (vm_compute; reflexivity).
  split; [exact H|].
  apply (GetFileAttrs_then_Set_crashes host_links "/d/c" _ table_a_overlay H);
    discriminate.
Defined.

(** X13. Removing twice is removing once: a second [Remove] of the same path
    on the same host changes nothing. *)
Theorem Remove_twice host p s :
  Remove host p (Remove host p s) = Remove host p s.
Proof.
  destruct (path2handle s !! canonicalize host p) as [h|] eqn:E.
  - destruct (Remove_handles host p s h E) as [E1 _].
    assert (Hn : path2handle (Remove host p s) !! canonicalize host p = None)
      by (rewrite E1; apply lookup_delete_eq).
    unfold Remove at 1. by rewrite Hn.
  - unfold Remove. by rewrite E, E.
Qed.

(** ** What a flush leaves for the readers *)

Lemma FileAttrDB_Write_lookup host db n :
  db_path (FileAttrDB_Write host db).1 = db_path db /\
  (attrs (FileAttrDB_Write host db).1 !! n = attrs db !! n \/
   (attrs (FileAttrDB_Write host db).1 !! n = None /\
    attrs db !! n = Some None)).
Proof.
  destruct (0 <? base.size (attrs db))%nat eqn:Es.
  - destruct (fopen_w host (db_path db)) eqn:Eo.
    + apply Nat.ltb_lt in Es.
      destruct (FileAttrDB_Write_opened host db Es Eo) as (m & -> & Hm).
      simpl. split; [done|]. rewrite Hm. case_decide; [by right | by left].
    + rewrite FileAttrDB_Write_closed by by right. split; [done | by left].
  - apply Nat.ltb_ge in Es.
    rewrite FileAttrDB_Write_closed by (left; lia). split; [done | by left].
Qed.

Lemma GetFileAttrs_result host p s :
  (GetFileAttrs host p s).1 =
  match path2db s !! dbdir host (canonicalize host p) with
  | Some db => default None (attrs db !! filename p)
  | None =>
      default None
        (attrs (FileAttrDB_new host (dbdir host (canonicalize host p)))
           !! filename p)
  end.
Proof.
  unfold GetFileAttrs, GetDB, FileAttrDB_GetFileAttrs.
  destruct (path2db s !! dbdir host (canonicalize host p)) as [db|].
  - by destruct (attrs db !! filename p).
  - by destruct (attrs (FileAttrDB_new host _) !! filename p).
Qed.

(** X14. A flush changes no answer from a store that is in the table: for a
    path whose store is in the table before [FileTable::Write], and which
    leads to the same store afterwards, [GetFileAttrs] returns after the
    flush what it returned before, whatever the host has become, since the
    flush erases null entries only. *)
Theorem GetFileAttrs_after_Write host host' host'' p s :
  is_Some (path2db s !! dbdir host (canonicalize host p)) ->
  dbdir host'' (canonicalize host'' p) = dbdir host (canonicalize host p) ->
  (GetFileAttrs host'' p (Write host' s).1).1 = (GetFileAttrs host p s).1.
Proof.
  intros [db Hdb] Hk. rewrite !GetFileAttrs_result, Hk.
  destruct (Write_spec host' s) as (_ & _ & H).
  rewrite H, Hdb. case_decide; [|done]. simpl.
  destruct (FileAttrDB_Write_lookup host' db (filename p)) as (_ & [->| [-> ->]]);
    done.
Qed.

Lemma GetFileAttrs_after_Write_witness :
  is_Some (path2db table_y_looked_up !! dbdir host_links (canonicalize host_links "/d/a")) /\
  (GetFileAttrs host_readonly "/d/a" (Write host_links table_y_looked_up).1).1
    = Some (attrs_of 420 7 8) /\
  (GetFileAttrs host_readonly "/d/y" (Write host_links table_y_looked_up).1).1
    = None.
Proof.
  assert (H : is_Some (path2db table_y_looked_up
                         !! dbdir host_links (canonicalize host_links "/d/a")))
    by (vm_compute; by eexists).
  split; [exact H|]. split.
  - rewrite (GetFileAttrs_after_Write host_links host_links host_readonly
               "/d/a" table_y_looked_up H); [|reflexivity].
    vm_compute. reflexivity.
  - rewrite (GetFileAttrs_after_Write host_links host_links host_readonly
               "/d/y" table_y_looked_up H); [|reflexivity].
    vm_compute. reflexivity.
Defined.

(** ** What a move does to the records *)

Lemma store_back_lookup_ne s k r k' :
  k' <> k -> path2db (store_back s k r) !! k' = path2db s !! k'.
Proof.
  intros Hne. unfold store_back.
  destruct (r.2); simpl; by rewrite lookup_insert_ne.
Qed.

Lemma remove_attrs_entry_other host p s k n v :
  entry s k n = Some v ->
  (k, n) <> (dbdir host (canonicalize host p), filename p) ->
  entry (remove_attrs host p s) k n = Some v.
Proof.
  unfold entry. destruct (path2db s !! k) as [db0|] eqn:E0; [|done]. simpl.
  intros Hv Hne. unfold remove_attrs.
  destruct (GetDB host p s) as [[kp db] s1] eqn:E.
  pose proof E as (-> & Hk & _ & _ & _ & Hoth)%GetDB_spec.
  destruct (decide (k = dbdir host (canonicalize host p))) as [->|Hk'].
  - rewrite (GetDB_cached _ _ _ _ E0) in E. injection E as <- <-.
    rewrite store_back_lookup. simpl. unfold FileAttrDB_Remove.
    destruct (attrs db0 !! filename p); simpl; [|done].
    rewrite lookup_delete_ne; [done|]. intros <-. done.
  - rewrite store_back_lookup_ne, Hoth, E0 by done. done.
Qed.

(** X15. A move takes the effective attributes along: when [Move] of a
    registered path whose [stat] succeeds completes, [GetFileAttrs] of the
    target returns the [stat] of the source, with its overlay applied,
    converted to a record, and [GetFileAttrs] of the source returns null.
    Both paths are taken in canonical form; the target lies in another
    directory or has another file name than the source, and its file name is
    neither [.] nor [..]. *)
Theorem Move_carries_record host a b s h st s' :
  path2handle s !! canonicalize host a = Some h ->
  canonicalize host (canonicalize host a) = canonicalize host a ->
  canonicalize host (canonicalize host b) = canonicalize host b ->
  host_stat host (canonicalize host a) = Some st ->
  (dbdir host (canonicalize host b), filename (canonicalize host b))
    <> (dbdir host (canonicalize host a), filename (canonicalize host a)) ->
  filename (canonicalize host b) <> "."%string ->
  filename (canonicalize host b) <> ".."%string ->
  Move host a b s = Some s' ->
  (GetFileAttrs host (canonicalize host b) s').1 =
    Some (FileAttrs_of_stat
            match (GetFileAttrs host (canonicalize host a) s).1 with
            | Some r => overlay r st
            | None => st
            end) /\
  (GetFileAttrs host (canonicalize host a) s').1 = None.
Proof.
  intros Hh Ha Hb Hst Hne H1 H2. unfold Move. rewrite Hh, Stat_unfold, Ha, Hst.
  cbn [fst snd default]. change (0 =? 0) with true. cbv iota.
  set (x := FileAttrs_of_stat _). set (s2 := mkFileTable _ _ _ _).
  destruct (SetFileAttrs host (canonicalize host b) x s2) as [s3|] eqn:E;
    [|done].
  simpl. intros [= <-].
  destruct (SetFileAttrs_entry _ _ _ _ _ E H1 H2) as [He _].
  rewrite Hb in He. split.
  - apply GetFileAttrs_entry. rewrite Hb.
    apply remove_attrs_entry_other; [done|]. by rewrite Ha.
  - destruct (remove_attrs_lookup host (canonicalize host a) s3)
      as (db & Hdb & Hn).
    by apply (GetFileAttrs_absent host _ _ db).
Qed.

Lemma Move_carries_record_witness :
  path2handle table_a_overlay !! canonicalize host_links "/d/a" = Some handle_10 /\
  exists s',
    Move host_links "/d/a" "/d/x" table_a_overlay = Some s' /\
    (GetFileAttrs host_links "/d/x" s').1
      = Some (mkFileAttrs mode_reg_644 7 8 0 0 0 0 0 0) /\
    (GetFileAttrs host_links "/d/a" s').1 = None.
Proof.
  split; [reflexivity|].
  destruct (Move host_links "/d/a" "/d/x" table_a_overlay) as [s'|] eqn:E;
    [|vm_compute in E; discriminate].
  exists s'. split; [reflexivity|].
  destruct (Move_carries_record host_links "/d/a" "/d/x" table_a_overlay
              handle_10 (stat_of 1 10 mode_reg_644) s') as [R1 R2];
    [reflexivity | reflexivity | reflexivity | reflexivity
    | discriminate | discriminate | discriminate | exact E |].
  split; [|exact R2]. refine (eq_trans R1 _). vm_compute. reflexivity.
Defined.

(** ** Stores, their keys and the dirty set *)

Lemma stores_filed_same s s' :
  path2db s' = path2db s -> dirty s' = dirty s ->
  stores_filed s -> stores_filed s'.
Proof. unfold stores_filed. by intros -> ->. Qed.

Lemma stores_filed_set s k db' :
  stores_filed s -> db_path db' = sidecar_path k ->
  stores_filed (set_path2db s k db').
Proof.
  intros [H1 H2] Hp. split; simpl.
  - intros k' db. rewrite lookup_insert. case_decide; [|apply H1].
    intros [= <-]. by subst.
  - intros k' Hk. rewrite lookup_insert. case_decide; [by eexists | by apply H2].
Qed.

Lemma stores_filed_back s k r :
  stores_filed s -> db_path r.1 = sidecar_path k ->
  stores_filed (store_back s k r).
Proof.
  intros Hs Hp. pose proof (stores_filed_set s k r.1 Hs Hp) as [H1 H2].
  unfold store_back. destruct (r.2); [|done]. split; simpl; [exact H1|].
  intros k' [->%elem_of_singleton|Hk]%elem_of_union.
  - rewrite lookup_insert_eq. by eexists.
  - by apply H2.
Qed.

Lemma stores_filed_GetDB host p s k db s1 :
  stores_filed s -> GetDB host p s = (k, db, s1) ->
  stores_filed s1 /\ db_path db = sidecar_path k.
Proof.
  intros Hs. unfold GetDB.
  destruct (path2db s !! dbdir host (canonicalize host p)) as [db0|] eqn:E;
    intros [= <- <- <-].
  - split; [done|]. by apply Hs.
  - split; [|done]. by apply stores_filed_set.
Qed.

Lemma stores_filed_GetFileAttrs host p s :
  stores_filed s -> stores_filed (GetFileAttrs host p s).2.
Proof.
  intros Hs. unfold GetFileAttrs.
  destruct (GetDB host p s) as [[k db] s1] eqn:E.
  destruct (stores_filed_GetDB _ _ _ _ _ _ Hs E) as [Hs1 Hp].
  unfold FileAttrDB_GetFileAttrs.
  destruct (attrs db !! filename p); simpl; by apply stores_filed_set.
Qed.

Lemma stores_filed_SetFileAttrs host p a s s' :
  stores_filed s -> SetFileAttrs host p a s = Some s' -> stores_filed s'.
Proof.
  intros Hs. unfold SetFileAttrs.
  destruct (GetDB host p s) as [[k db] s1] eqn:E.
  destruct (stores_filed_GetDB _ _ _ _ _ _ Hs E) as [Hs1 Hp].
  destruct (FileAttrDB_SetFileAttrs p a db) as [r|] eqn:Er; [|done].
  intros [= <-]. apply stores_filed_back; [done|].
  unfold FileAttrDB_SetFileAttrs in Er.
  destruct (_ || _); [by injection Er as <-|].
  destruct (attrs db !! filename p) as [[old|]|]; [| done |];
    by injection Er as <-.
Qed.

Lemma stores_filed_remove_attrs host p s :
  stores_filed s -> stores_filed (remove_attrs host p s).
Proof.
  intros Hs. unfold remove_attrs.
  destruct (GetDB host p s) as [[k db] s1] eqn:E.
  destruct (stores_filed_GetDB _ _ _ _ _ _ Hs E) as [Hs1 Hp].
  apply stores_filed_back; [done|]. unfold FileAttrDB_Remove.
  by destruct (attrs db !! filename p).
Qed.

Lemma stores_filed_Write host s :
  stores_filed s -> stores_filed (Write host s).1.
Proof.
  intros [H1 H2]. destruct (Write_spec host s) as (_ & Hd & Hl).
  split.
  - intros k db. rewrite Hl. case_decide; [|apply H1].
    destruct (path2db s !! k) as [db0|] eqn:E; [|done]. simpl.
    intros [= <-].
    destruct (FileAttrDB_Write_lookup host db0 EmptyString) as [-> _].
    by apply H1.
  - intros k. rewrite Hd. set_solver.
Qed.

Lemma step_stores_filed host c s s' :
  stores_filed s -> step host c s = Some s' -> stores_filed s'.
Proof.
  intros Hs. destruct c; simpl; try (intros [= <-]).
  - rewrite Stat_unfold. simpl. by apply stores_filed_GetFileAttrs.
  - unfold GetFileHandle. destruct (path2handle s !! _); [done|].
    by destruct (host_stat host _).
  - unfold Move. destruct (path2handle s !! _) as [h|]; [|by intros [= <-]].
    rewrite Stat_unfold. cbn [fst snd].
    set (s1 := (GetFileAttrs host _ s).2).
    assert (Hs1 : stores_filed s1) by by apply stores_filed_GetFileAttrs.
    set (s2 := mkFileTable _ _ _ _).
    assert (Hs2 : stores_filed s2) by by apply (stores_filed_same s1).
    destruct (_ =? 0).
    + destruct (SetFileAttrs host _ _ s2) as [s3|] eqn:E; [|done].
      simpl. intros [= <-]. apply stores_filed_remove_attrs.
      by apply (stores_filed_SetFileAttrs _ _ _ _ _ Hs2 E).
    + simpl. intros [= <-]. by apply stores_filed_remove_attrs.
  - unfold Remove. destruct (path2handle s !! _) as [h|]; [|done].
    apply stores_filed_remove_attrs. by apply (stores_filed_same s).
  - by apply stores_filed_SetFileAttrs.
  - by apply stores_filed_GetFileAttrs.
  - unfold Run_step. destruct (negb _); [|done]. by apply stores_filed_Write.
Qed.

Lemma run_stores_filed cs : forall s s',
  stores_filed s -> run cs s = Some s' -> stores_filed s'.
Proof.
  induction cs as [|[host c] cs IH]; simpl; intros s s' Hs Hr.
  - by injection Hr as <-.
  - destruct (step host c s) as [s1|] eqn:E; [|done]. simpl in Hr.
    apply (IH s1); [|done]. by apply (step_stores_filed host c s).
Qed.

Lemma reached_stores_filed s : reached s -> stores_filed s.
Proof.
  intros [cs Hr]. apply (run_stores_filed cs FileTable_init); [|done].
  split; intros k; simpl; [by rewrite lookup_empty | set_solver].
Qed.

(** X16. In every table that calls lead to from the initial one, the store
    filed under a key writes the file [.nfsd_fattrs] under that key, and
    every member of the dirty set is a store of the table, so that a flush
    never follows a dangling pointer; and the store that [GetDB] returns for
    a path, found or created, writes the file [.nfsd_fattrs] under the key
    it is filed under. *)
Theorem stores_filed_reached s :
  reached s ->
  (forall k db, path2db s !! k = Some db ->
     db_path db = String.append k "/.nfsd_fattrs") /\
  (forall k, k ∈ dirty s -> is_Some (path2db s !! k)) /\
  (forall host p k db s1,
     GetDB host p s = (k, db, s1) ->
     path2db s1 !! k = Some db /\
     db_path db = String.append k "/.nfsd_fattrs").
Proof.
  intros Hr. pose proof (reached_stores_filed s Hr) as Hs.
  destruct Hs as [H1 H2]. split; [exact H1|]. split; [exact H2|].
  intros host p k db s1 E.
  destruct (stores_filed_GetDB host p s k db s1 (conj H1 H2) E) as [_ Hp].
  apply GetDB_spec in E as (_ & Hk & _). by split.
Qed.

Lemma stores_filed_reached_witness :
  reached table_a_dirty /\
  "/d"%string ∈ dirty table_a_dirty /\
  exists db,
    path2db table_a_dirty !! "/d"%string = Some db /\
    db_path db = "/d/.nfsd_fattrs"%string.
Proof.
  assert (H : reached table_a_dirty) by reached_by_run.
  destruct (stores_filed_reached table_a_dirty H) as (H1 & H2 & _).
  assert (Hd : "/d"%string ∈ dirty table_a_dirty) by (vm_compute; set_solver).
  split; [exact H|]. split; [exact Hd|].
  destruct (H2 _ Hd) as [db Hdb]. exists db. split; [exact Hdb|].
  exact (H1 _ _ Hdb).
Defined.

(** X17. A turn of the maintenance loop writes sidecar files only: each file
    it writes is the [.nfsd_fattrs] of the directory of a dirty store that
    holds at least one entry and whose file opened, and its content is the
    lines of the records of that store. *)
Theorem Run_step_writes_sidecars host s p txt :
  reached s ->
  (p, txt) ∈ (Run_step host s).2 ->
  exists k db,
    k ∈ dirty s /\ path2db s !! k = Some db /\
    p = String.append k "/.nfsd_fattrs" /\
    txt = file_text (records (attrs db)) /\
    (0 < base.size (attrs db))%nat /\ fopen_w host p = true.
Proof.
  intros Hr. destruct (reached_stores_filed s Hr) as [H1 _].
  unfold Run_step. destruct (negb _); [|by intros ?%elem_of_nil].
  destruct (Write_spec host s) as (-> & _ & _).
  intros (k & Hk & Hw)%list_elem_of_omap.
  apply elem_of_elements in Hk. unfold written in Hw.
  destruct (path2db s !! k) as [db|] eqn:E; [|done]. simpl in Hw.
  exists k, db. split; [done|]. split; [done|].
  destruct (0 <? base.size (attrs db))%nat eqn:Es.
  - destruct (fopen_w host (db_path db)) eqn:Eo.
    + apply Nat.ltb_lt in Es.
      destruct (FileAttrDB_Write_opened host db Es Eo) as (m & Em & _).
      rewrite Em in Hw. simpl in Hw. injection Hw as <- <-.
      rewrite (H1 _ _ E) in *. done.
    + rewrite FileAttrDB_Write_closed in Hw by by right. done.
  - apply Nat.ltb_ge in Es.
    rewrite FileAttrDB_Write_closed in Hw by (left; lia). done.
Qed.

Lemma Run_step_writes_sidecars_witness :
  reached table_a_dirty /\
  (Run_step host_links table_a_dirty).2
    = [("/d/.nfsd_fattrs"%string,
        list_ascii_of_string "0644:7:8:0:a" ++ ["010"%char])] /\
  exists k db,
    k ∈ dirty table_a_dirty /\ path2db table_a_dirty !! k = Some db /\
    "/d/.nfsd_fattrs"%string = String.append k "/.nfsd_fattrs" /\
    list_ascii_of_string "0644:7:8:0:a" ++ ["010"%char]
      = file_text (records (attrs db)).
Proof.
  assert (H : reached table_a_dirty) by reached_by_run.
  assert (E : (Run_step host_links table_a_dirty).2
              = [("/d/.nfsd_fattrs"%string,
                  list_ascii_of_string "0644:7:8:0:a" ++ ["010"%char])])
    by (vm_compute; reflexivity).
  split; [exact H|]. split; [exact E|].
  destruct (Run_step_writes_sidecars host_links table_a_dirty
              "/d/.nfsd_fattrs" (list_ascii_of_string "0644:7:8:0:a" ++ ["010"%char]) H)
    as (k & db & H1 & H2 & H3 & H4 & _).
  { rewrite E. apply elem_of_cons. by left. }
  exists k, db. repeat split; assumption.
Defined.

(** ** The order of the lines of a sidecar file *)

Lemma String_compare_trans s1 : forall s2 s3,
  String.compare s1 s2 <> Gt -> String.compare s2 s3 <> Gt ->
  String.compare s1 s3 <> Gt.
Proof.
  induction s1 as [|c1 s1 IH]; intros [|c2 s2] [|c3 s3]; simpl; try done.
  unfold Ascii.compare.
  destruct (N.compare_spec (N_of_ascii c1) (N_of_ascii c2)) as [E12|L12|G12],
    (N.compare_spec (N_of_ascii c2) (N_of_ascii c3)) as [E23|L23|G23],
    (N.compare_spec (N_of_ascii c1) (N_of_ascii c3)) as [E13|L13|G13];
    try done; try lia.
  apply IH.
Qed.

Global Instance key_le_total : Total key_le.
Proof. intros x y. unfold key_le. apply String.leb_total. Qed.

Global Instance key_le_trans : Transitive key_le.
Proof.
  intros x y z. unfold key_le, String.leb. intros H1 H2.
  pose proof (String_compare_trans x.1 y.1 z.1) as H.
  destruct (String.compare x.1 y.1), (String.compare y.1 z.1),
    (String.compare x.1 z.1); try done; by exfalso; apply H.
Qed.

Lemma records_sorted m : StronglySorted name_lt (records m).
Proof.
  unfold records.
  pose proof (StronglySorted_merge_sort key_le (map_to_list m)) as HS.
  assert (HN : NoDup (in_order m).*1).
  { unfold in_order. rewrite merge_sort_Permutation.
    apply NoDup_fst_map_to_list. }
  fold (in_order m) in HS.
  induction HS as [|[n v] l HS IH HF]; [constructor|].
  change (NoDup (n :: l.*1)) in HN. apply NoDup_cons in HN as [Hn HN].
  destruct v as [a|]; [|by apply IH].
  change (StronglySorted name_lt
            ((n, a) :: omap (fun e => a ← e.2; Some (e.1, a)) l)).
  constructor; [by apply IH|].
  apply Forall_forall. intros [k b] Hin.
  apply list_elem_of_omap in Hin as ([k' [b'|]] & Hin & Heq);
    simpl in Heq; [|done]. injection Heq as -> ->.
  rewrite Forall_forall in HF. specialize (HF _ Hin).
  unfold key_le, name_lt, String.leb, String.ltb in *. simpl in *.
  destruct (String.compare n k) eqn:Ec; [|done|done].
  apply String.compare_eq_iff in Ec as ->.
  contradict Hn. apply list_elem_of_fmap. by exists (k, Some b).
Qed.

(** X18. A flush that opens the file writes one line for each non-null
    entry of the store and nothing else, the lines in strictly ascending
    order of the names. *)
Theorem FileAttrDB_Write_sorted host db :
  (0 < base.size (attrs db))%nat -> fopen_w host (db_path db) = true ->
  (FileAttrDB_Write host db).2 = Some (file_text (records (attrs db))) /\
  StronglySorted name_lt (records (attrs db)) /\
  (forall n a, (n, a) ∈ records (attrs db) <-> attrs db !! n = Some (Some a)).
Proof.
  intros Hs Ho.
  destruct (FileAttrDB_Write_opened host db Hs Ho) as (m & -> & _).
  split; [done|]. split; [apply records_sorted|]. apply elem_of_records.
Qed.

Lemma FileAttrDB_Write_sorted_witness :
  (FileAttrDB_Write host_links store_ab).2
    = Some (file_text (records (attrs store_ab))) /\
  records (attrs store_ab)
    = [("a.txt"%string, attrs_of 384 501 20);
       ("b.txt"%string, attrs_of 420 no_override 20)].
Proof.
  destruct (FileAttrDB_Write_sorted host_links store_ab) as (H & _).
  - vm_compute. lia.
  - reflexivity.
  - split; [exact H|]. vm_compute. reflexivity.
Defined.

(** ** The overlay *)

(** X19. A record whose mode, uid and gid all hold the sentinel is as good
    as no record: where the host [stat] succeeds, [Stat] returns what the
    host reported. *)
Theorem Stat_all_sentinels host p buf s st a :
  host_stat host (canonicalize host p) = Some st ->
  (GetFileAttrs host (canonicalize host p) s).1 = Some a ->
  Valid (mode a) = false -> Valid (uid a) = false -> Valid (gid a) = false ->
  (Stat host p buf s).1 = (0, st).
Proof.
  intros Hst Ha Hm Hu Hg. rewrite Stat_unfold, Hst, Ha. simpl.
  unfold overlay. rewrite Hm, Hu, Hg. by destruct st.
Qed.

Lemma Stat_all_sentinels_witness :
  (Stat host_links "/d/a" stat_zero
     (default FileTable_init
        (SetFileAttrs host_links "/d/a"
           (attrs_of no_override no_override no_override) FileTable_init))).1
  = (0, stat_of 1 10 mode_reg_644).
Proof.
  apply (Stat_all_sentinels host_links "/d/a" stat_zero _
           (stat_of 1 10 mode_reg_644)
           (attrs_of no_override no_override no_override));
    first [reflexivity | vm_compute; reflexivity].
Defined.

Lemma lor_below a b n :
  0 < n -> 0 <= a < 2 ^ n -> 0 <= b < 2 ^ n -> 0 <= Z.lor a b < 2 ^ n.
Proof.
  intros Hn Ha Hb.
  assert (H0 : 0 <= Z.lor a b) by (apply Z.lor_nonneg; lia).
  split; [done|].
  destruct (Z.eq_dec (Z.lor a b) 0) as [->|Hne]; [lia|].
  apply Z.log2_lt_pow2; [lia|]. rewrite Z.log2_lor by lia.
  apply Z.max_lub_lt.
  - destruct (Z.eq_dec a 0) as [->|]; [simpl; lia|]. apply Z.log2_lt_pow2; lia.
  - destruct (Z.eq_dec b 0) as [->|]; [simpl; lia|]. apply Z.log2_lt_pow2; lia.
Qed.

Lemma land_below a b n :
  0 < n -> 0 <= a -> 0 <= b < 2 ^ n -> 0 <= Z.land a b < 2 ^ n.
Proof.
  intros Hn Ha Hb.
  assert (H0 : 0 <= Z.land a b) by (apply Z.land_nonneg; lia).
  split; [done|].
  destruct (Z.eq_dec (Z.land a b) 0) as [->|Hne]; [lia|].
  apply Z.log2_lt_pow2; [lia|].
  eapply Z.le_lt_trans; [apply Z.log2_land; lia|].
  apply Z.min_lt_iff. right.
  destruct (Z.eq_dec b 0) as [->|]; [simpl; lia|]. apply Z.log2_lt_pow2; lia.
Qed.

Lemma lor_land_absorb x M : Z.lor x (Z.land x M) = x.
Proof.
  apply Z.bits_inj'. intros n Hn. rewrite Z.lor_spec, Z.land_spec.
  by destruct (Z.testbit x n), (Z.testbit M n).
Qed.

Lemma Valid_false x : Valid x = false -> x = 4294967295.
Proof.
  unfold Valid. intros H%negb_false_iff. by apply Z.eqb_eq in H.
Qed.

Lemma merge_again r su :
  0 <= su < 2 ^ 32 -> (Valid r = true -> 0 <= r < 2 ^ 32) ->
  let x := if Valid r then r else su in
  (if Valid (wrap32 x) then wrap32 x else su) = x.
Proof.
  intros Hs Hr x.
  assert (Hx : wrap32 x = x).
  { unfold wrap32, x. destruct (Valid r); apply Z.mod_small; auto. }
  rewrite Hx. destruct (Valid x) eqn:Ev; [done|].
  unfold x in *. destruct (Valid r) eqn:Er; [congruence | done].
Qed.

(** X20. The record that [Move] makes of an effective [stat] gives that
    [stat] back: overlaid on the host [stat] it was computed from, the record
    built from the overlaid result reproduces mode, uid and gid of that
    result. The values fit 32 bits and the effective mode is not the
    sentinel. *)
Theorem overlay_of_effective st r :
  0 <= st_mode st < 2 ^ 32 -> 0 <= st_uid st < 2 ^ 32 ->
  0 <= st_gid st < 2 ^ 32 ->
  0 <= mode r < 2 ^ 32 -> 0 <= uid r < 2 ^ 32 -> 0 <= gid r < 2 ^ 32 ->
  st_mode (overlay r st) <> 4294967295 ->
  overlay (FileAttrs_of_stat (overlay r st)) st = overlay r st /\
  overlay (FileAttrs_of_stat st) st = st.
Proof.
  intros Hm Hu Hg Rm Ru Rg Hne.
  assert (HX : 0 <= Z.land (st_mode st) S_IFMT < 2 ^ 32).
  { apply land_below; [lia | lia | by vm_compute]. }
  pose proof (merge_again (uid r) (st_uid st) Hu (fun _ => Ru)) as Eu.
  pose proof (merge_again (gid r) (st_gid st) Hg (fun _ => Rg)) as Eg.
  pose proof (merge_again 4294967295 (st_uid st) Hu) as Eu0.
  pose proof (merge_again 4294967295 (st_gid st) Hg) as Eg0.
  change (Valid 4294967295) with false in Eu0, Eg0. simpl in *.
  split.
  - unfold overlay at 1. unfold FileAttrs_of_stat. cbn [mode uid gid].
    unfold overlay in *. cbn [st_mode st_uid st_gid st_dev st_ino st_size
      st_atime_sec st_atime_nsec st_mtime_sec st_mtime_nsec] in *.
    rewrite Eu, Eg. f_equal.
    set (e := if Valid (mode r) then _ else _) in *.
    assert (He : 0 <= e < 2 ^ 32).
    { unfold e. destruct (Valid (mode r)); [by apply lor_below | done]. }
    assert (Hw : wrap32 e = e) by (unfold wrap32; apply Z.mod_small; lia).
    rewrite Hw. destruct (Valid e) eqn:Ev.
    + unfold e. destruct (Valid (mode r)).
      * by rewrite <- Z.lor_assoc, Z.lor_diag.
      * apply lor_land_absorb.
    + by apply Valid_false in Ev.
  - unfold overlay, FileAttrs_of_stat. cbn [mode uid gid].
    rewrite Eu0, Eg0 by done.
    assert (Hw : wrap32 (st_mode st) = st_mode st)
      by (unfold wrap32; apply Z.mod_small; lia).
    rewrite Hw, lor_land_absorb. destruct st. simpl.
    by destruct (Valid st_mode0).
Qed.

Lemma overlay_of_effective_witness :
  overlay (FileAttrs_of_stat
             (overlay (attrs_of 493 no_override 8) (stat_of 1 10 mode_reg_644)))
    (stat_of 1 10 mode_reg_644)
  = overlay (attrs_of 493 no_override 8) (stat_of 1 10 mode_reg_644).
Proof.
  apply (overlay_of_effective (stat_of 1 10 mode_reg_644)
           (attrs_of 493 no_override 8));
    first [by vm_compute | vm_compute; discriminate].
Defined.

(** ** Where the read loop of a store ends *)

Lemma FileAttrs_read_foreign MAXNAMELEN u name0 c rest :
  Ascii.eqb c "0" = false ->
  FileAttrs_read MAXNAMELEN u name0 (c :: rest)
  = Some (u_attrs u, name0, c :: rest).
Proof.
  intros Hc. unfold FileAttrs_read, fscanf_fattrs. cbn [scan_lit].
  rewrite Hc. cbn. by destruct (u_attrs u).
Qed.

Lemma skip_ws_text_then l c rest :
  isspace c = false ->
  skip_ws (file_text l ++ c :: rest) = file_text l ++ c :: rest.
Proof.
  intros Hc. destruct l as [|[n a] l]; simpl; [by rewrite Hc | done].
Qed.

(** X21. The read loop stops at the first line that does not start with
    [0] and keeps the records before it, without regard to the rest of the
    file and to what uninitialised memory holds: a file made of lines written
    by the flush, for names without white space and shorter than
    [MAXNAMELEN], and then of anything that starts with another character
    than [0] and white space loads as those lines alone. *)
Theorem FileAttrDB_load_stops MAXNAMELEN junk l c rest : forall fuel i m,
  Forall (fun e => scannable e.1 = true /\
                   (String.length e.1 < MAXNAMELEN)%nat) l ->
  Ascii.eqb c "0" = false -> isspace c = false ->
  (length l < fuel)%nat ->
  FileAttrDB_load MAXNAMELEN fuel junk i (file_text l ++ c :: rest) m
  = Done (load_records junk i l m).
Proof.
  induction l as [|[n a] l IH]; intros fuel i m Hl Hc Hs Hf;
    (destruct fuel as [|fuel]; [simpl in Hf; lia|]).
  - cbn [FileAttrDB_load file_text fmap list_fmap concat app].
    by rewrite FileAttrs_read_foreign.
  - apply Forall_cons in Hl as [[Hn Hlen] Hl]. simpl in Hn, Hlen.
    cbn [FileAttrDB_load]. rewrite file_text_cons, <- app_assoc. cbn [fst snd].
    rewrite (FileAttrs_read_written _ _ _ _ _ _ Hn Hlen), skip_ws_text_then
      by done.
    rewrite (scannable_nonempty _ Hn). cbn [load_records fst snd].
    apply IH; [done..|simpl in Hf; lia].
Qed.

Lemma FileAttrDB_load_stops_witness :
  FileAttrDB_load 6 2 junk_zero 0
    (file_text [("a.txt"%string, attrs_of 384 1 2)]
       ++ "#"%char :: list_ascii_of_string "0644:1:2:0:b.txt") ∅
  = Done {["a.txt"%string := Some (attrs_of 384 1 2)]}.
Proof.
  rewrite (FileAttrDB_load_stops 6 junk_zero
             [("a.txt"%string, attrs_of 384 1 2)] "#"
             (list_ascii_of_string "0644:1:2:0:b.txt") 2 0 ∅).
  - vm_compute. reflexivity.
  - constructor; [split; [reflexivity | simpl; lia] | constructor].
  - reflexivity.
  - reflexivity.
  - simpl. lia.
Defined.

Lemma c_str_length cs :
  c_str cs <> [] ->
  (String.length (string_of_list_ascii (c_str cs)) =? 0)%nat = false.
Proof. by destruct (c_str cs). Qed.

(** X22. At the end of the file the read loop goes on for as long as the
    uninitialised name buffer reads as a string that is not empty: on a file
    made of lines written by the flush, for names without white space and
    shorter than [MAXNAMELEN], no number of turns brings the loop to its end,
    or to write past the buffer, when every turn finds such a buffer. *)
Theorem FileAttrDB_load_runs_on MAXNAMELEN junk :
  (forall i, c_str (u_cname (junk i)) <> []) ->
  forall fuel l i m,
    Forall (fun e => scannable e.1 = true /\
                     (String.length e.1 < MAXNAMELEN)%nat) l ->
    FileAttrDB_load MAXNAMELEN fuel junk i (file_text l) m = Running.
Proof.
  intros Hj. induction fuel as [|fuel IH]; intros l i m Hl; [done|].
  cbn [FileAttrDB_load]. destruct l as [|[n a] l].
  - cbn [file_text fmap list_fmap concat]. rewrite FileAttrs_read_eof.
    rewrite (c_str_length _ (Hj i)).
    apply (IH [] (S i)). constructor.
  - apply Forall_cons in Hl as [[Hn Hlen] Hl]. simpl in Hn, Hlen.
    rewrite file_text_cons. cbn [fst snd].
    rewrite (FileAttrs_read_written _ _ _ _ _ _ Hn Hlen), skip_ws_file_text.
    rewrite (scannable_nonempty _ Hn). by apply IH.
Qed.

Lemma FileAttrDB_load_runs_on_witness :
  FileAttrDB_load 6 1000
    (fun _ => mkUninit (attrs_of 0 0 0) (list_ascii_of_string "a.txt")) 0
    (file_text [("a.txt"%string, attrs_of 384 1 2)]) ∅ = Running.
Proof.
  apply FileAttrDB_load_runs_on; [done|].
  constructor; [split; [reflexivity | simpl; lia] | constructor].
Defined.

(** ** The handle 0, and a move there and back *)

Lemma step_zero_unbound host c s s' :
  handles_nonzero s -> handle2path s !! 0 = None ->
  step host c s = Some s' -> handle2path s' !! 0 = None.
Proof.
  intros Hn Hz. destruct c; simpl; try (intros [= <-]).
  - destruct (Stat_handles host path buf s) as (_ & -> & _). done.
  - unfold GetFileHandle.
    destruct (path2handle s !! canonicalize host path); [done|].
    destruct (host_stat host (canonicalize host path)) as [st|]; [|done].
    simpl. rewrite lookup_insert_ne; [done|]. apply make_file_handle_nonzero.
  - intros HM.
    destruct (path2handle s !! canonicalize host pathFrom) as [h|] eqn:E.
    + destruct (Move_handles host _ _ s h s' E HM) as [_ ->].
      pose proof (Hn _ _ E).
      by rewrite lookup_insert_ne, lookup_delete_ne.
    + unfold Move in HM. rewrite E in HM. by injection HM as <-.
  - destruct (path2handle s !! canonicalize host path) as [h|] eqn:E.
    + destruct (Remove_handles host path s h E) as [_ ->].
      rewrite lookup_delete. by case_decide.
    + unfold Remove. by rewrite E.
  - intros [_ ->]%SetFileAttrs_handles. done.
  - destruct (GetFileAttrs_handles host path s) as (_ & -> & _). done.
  - destruct (Run_step_handles host s) as [_ ->]. done.
Qed.

Lemma run_zero_unbound cs : forall s s',
  handles_nonzero s -> handle2path s !! 0 = None ->
  run cs s = Some s' -> handle2path s' !! 0 = None.
Proof.
  induction cs as [|[host c] cs IH]; simpl; intros s s' Hn Hz Hr.
  - by injection Hr as <-.
  - destruct (step host c s) as [s1|] eqn:E; [|done]. simpl in Hr.
    apply (IH s1); [| |done].
    + by apply (step_handles_nonzero host c s).
    + by apply (step_zero_unbound host c s).
Qed.

(** X23. The handle 0 never resolves: in every table that calls lead to
    from the initial one, [GetAbsolutePath(0)] finds no path, so the value
    [GetFileHandle] returns on failure is never taken for a file. *)
Theorem zero_never_resolves s :
  reached s -> GetAbsolutePath 0 s = None.
Proof.
  intros [cs Hr]. unfold GetAbsolutePath.
  apply (run_zero_unbound cs FileTable_init); [| |done].
  - intros q h. simpl. by rewrite lookup_empty.
  - apply lookup_empty.
Qed.

Lemma zero_never_resolves_witness :
  reached table_renamed_over /\ GetAbsolutePath 0 table_renamed_over = None.
Proof.
  assert (H : reached table_renamed_over) by reached_by_run.
  split; [exact H | exact (zero_never_resolves _ H)].
Defined.

(** X24. A move there and back restores the registry: when [A] is
    registered under a handle that resolves to [A], [B] is not registered,
    and [Move(A, B)] and then [Move(B, A)] complete on the same host, both
    maps of the registry are what they were. *)
Theorem Move_there_and_back host a b s h s1 s2 :
  path2handle s !! canonicalize host a = Some h ->
  handle2path s !! h = Some (canonicalize host a) ->
  path2handle s !! canonicalize host b = None ->
  Move host a b s = Some s1 ->
  Move host b a s1 = Some s2 ->
  path2handle s2 = path2handle s /\ handle2path s2 = handle2path s.
Proof.
  intros Ha Hh Hb H1 H2.
  destruct (Move_handles host a b s h s1 Ha H1) as [E1 E1'].
  assert (Hb1 : path2handle s1 !! canonicalize host b = Some h)
    by (rewrite E1; apply lookup_insert_eq).
  destruct (Move_handles host b a s1 h s2 Hb1 H2) as [E2 E2'].
  rewrite E2, E2', E1, E1'. split.
  - rewrite delete_insert_eq, delete_delete, (delete_id _ _ Hb).
    rewrite insert_delete_eq. by apply insert_id.
  - rewrite delete_insert_eq, delete_delete_eq.
    rewrite insert_delete_eq. by apply insert_id.
Qed.

Lemma Move_there_and_back_witness :
  exists s1 s2,
    Move host_links "/d/a" "/d/x" table_a_overlay = Some s1 /\
    Move host_links "/d/x" "/d/a" s1 = Some s2 /\
    path2handle s2 = path2handle table_a_overlay /\
    handle2path s2 = handle2path table_a_overlay.
Proof.
  destruct (Move host_links "/d/a" "/d/x" table_a_overlay) as [s1|] eqn:E1;
    [|vm_compute in E1; discriminate].
  destruct (Move host_links "/d/x" "/d/a" s1) as [s2|] eqn:E2.
  - exists s1, s2. split; [reflexivity|]. split; [exact E2|].
    apply (Move_there_and_back host_links "/d/a" "/d/x" table_a_overlay
             handle_10 s1 s2); first [reflexivity | assumption].
  - exfalso. vm_compute in E1. injection E1 as <-. vm_compute in E2.
    discriminate.
Defined.
